(** * The bar-replay data handlers of [data.py]

    A shallow embedding of [HistoricCSVDataHandler] and [QuandlDataHandler]:
    the part of pandas they rely on, the handler object as a record of its
    attributes, its methods as computations in a state-and-exception monad,
    and the properties of alignment, replay and the baseline report. *)

From Stdlib Require Import SpecFloat QArith ZArith Lia.
From stdpp Require Import gmap strings list fin_maps sorting.

Open Scope Z_scope.

(** * Python exceptions and results *)

Inductive exn : Set :=
  | KeyError
  | AttributeError
  | IndexError
  | ValueError
  | TypeError
  | FileNotFoundError
  | NotFoundError
  | StopIteration.

#[global] Instance exn_eq_dec : EqDecision exn.
Proof. solve_decision. Defined.

Inductive result (A : Type) : Type :=
  | Ok (a : A)
  | Raise (e : exn).
Arguments Ok {A} a.
Arguments Raise {A} e.

Definition rbind {A B} (r : result A) (k : A -> result B) : result B :=
  match r with
  | Ok a => k a
  | Raise e => Raise e
  end.

Notation "'try!' x := r 'in' k" := (rbind r (fun x => k))
  (at level 10, x name, r at level 100, k at level 200).

(** * The pandas fragment

    Timestamps are integers (a day count).  A cell of a loaded frame or of a
    table is a price or NaN.  pandas holds a price as an IEEE double; loading,
    alignment and replay copy and compare prices and never compute with
    them, and a cell holds the rational value of the double.  The baseline
    report is where the arithmetic is: its frame holds the doubles
    themselves (see [float64] below). *)

Abbreviation Timestamp := Z (only parsing).
Abbreviation Index := (list Z) (only parsing).

Abbreviation cell := (option Q) (only parsing).
Abbreviation NaN := (@None Q) (only parsing).

Abbreviation Row := (Z * list (option Q))%type (only parsing).

Record DataFrame : Set := mkDataFrame {
  columns : list string;
  rows : list Row
}.

Abbreviation Series := (list (Z * option Q)) (only parsing).

(** [df.index] *)
Definition index (df : DataFrame) : Index := map fst (rows df).

(** Position of a column label. *)
Fixpoint get_loc (name : string) (cols : list string) : option nat :=
  match cols with
  | [] => None
  | c :: cols' =>
      if decide (c = name) then Some 0%nat
      else S <$> get_loc name cols'
  end.

(** Positional access in a row; a short row reads as NaN. *)
Definition iat (i : nat) (cells : list cell) : cell := nth i cells NaN.

(** [df[name]]: the column as a Series, [KeyError] when there is none. *)
Definition getitem (df : DataFrame) (name : string) : result Series :=
  match get_loc name (columns df) with
  | None => Raise KeyError
  | Some i => Ok (map (fun r : Row => (fst r, iat i (snd r))) (rows df))
  end.

(** [pd.DataFrame(series)] with its single column called [name]. *)
Definition to_frame (name : string) (s : Series) : DataFrame :=
  {| columns := [name];
     rows := map (fun p : Timestamp * cell => (fst p, [snd p])) s |}.

(** [df.iloc[::-1]] *)
Definition iloc_reversed (df : DataFrame) : DataFrame :=
  {| columns := columns df; rows := rev (rows df) |}.

Definition Qltb (x y : Q) : bool := negb (Qle_bool y x).

(** [c > 0.0]; a comparison with NaN is False. *)
Definition gt0 (c : cell) : bool :=
  match c with
  | Some q => Qltb 0 q
  | None => false
  end.

(** [df[df['Close'] > 0.0]] *)
Definition where_close_positive (df : DataFrame) : result DataFrame :=
  match get_loc "Close" (columns df) with
  | None => Raise KeyError
  | Some i =>
      Ok {| columns := columns df;
            rows := filter (fun r : Row => gt0 (iat i (snd r)) = true) (rows df) |}
  end.

(** The entries of [l] at the positions where [mask] is true. *)
Fixpoint select {A} (mask : list bool) (l : list A) : list A :=
  match mask, l with
  | keep :: mask', x :: l' => if keep then x :: select mask' l' else select mask' l'
  | _, _ => []
  end.

(** [df.drop(columns=[name])]: every column carrying the label goes;
    [KeyError] when no column carries it. *)
Definition drop_column (name : string) (df : DataFrame) : result DataFrame :=
  if decide (name ∈ columns df)
  then
    let mask := map (fun c => negb (bool_decide (c = name))) (columns df) in
    Ok {| columns := select mask (columns df);
          rows := map (fun r : Row => (fst r, select mask (snd r))) (rows df) |}
  else Raise KeyError.

(** [df.drop(columns=names)] *)
Fixpoint drop_columns (names : list string) (df : DataFrame) : result DataFrame :=
  match names with
  | [] => Ok df
  | n :: names' => try! df' := drop_column n df in drop_columns names' df'
  end.

(** [df.columns = names]: [ValueError] on a length mismatch. *)
Definition set_columns (names : list string) (df : DataFrame) : result DataFrame :=
  if decide (length names = length (columns df))
  then Ok {| columns := names; rows := rows df |}
  else Raise ValueError.

(** [a.union(b)]: a new, sorted index with the labels of both; neither
    operand is changed. *)
Definition Index_union (a b : Index) : Index :=
  merge_sort Z.le (remove_dups (a ++ b)).

(** [idx.is_unique], [idx.is_monotonic_increasing] and
    [idx.is_monotonic_decreasing] (the last two allow equal neighbours). *)
Fixpoint is_unique (idx : Index) : bool :=
  match idx with
  | [] => true
  | T :: idx' => forallb (fun T' => negb (T' =? T)) idx' && is_unique idx'
  end.

Fixpoint is_monotonic_increasing (idx : Index) : bool :=
  match idx with
  | T :: ((T' :: _) as idx') => (T <=? T') && is_monotonic_increasing idx'
  | _ => true
  end.

Fixpoint is_monotonic_decreasing (idx : Index) : bool :=
  match idx with
  | T :: ((T' :: _) as idx') => (T' <=? T) && is_monotonic_decreasing idx'
  | _ => true
  end.

(** The forward-fill search of [reindex(method='pad')] in an increasing
    index: walking the rows in index order, keep the last one seen while
    labels stay at or before [T]. *)
Fixpoint pad_locate (T : Timestamp) (rs : list Row) (cur : option Row) : option Row :=
  match rs with
  | [] => cur
  | r :: rs' => if fst r <=? T then pad_locate T rs' (Some r) else cur
  end.

(** The same search in a decreasing index, where pandas takes the row of the
    label when it is there and otherwise the row just before the place where
    the label would be inserted: the last row whose label is at or after
    [T]. *)
Fixpoint pad_locate_decreasing (T : Timestamp) (rs : list Row) (cur : option Row)
    : option Row :=
  match rs with
  | [] => cur
  | r :: rs' => if T <=? fst r then pad_locate_decreasing T rs' (Some r) else cur
  end.

Definition nan_row (df : DataFrame) : list cell := map (fun _ => NaN) (columns df).

(** The frame on the index [idx] whose row at [T] holds the cells of the row
    of [df] that [locate] finds for [T], NaN when it finds none. *)
Definition take_located
    (locate : Timestamp -> list Row -> option Row -> option Row)
    (df : DataFrame) (idx : Index) : DataFrame :=
  {| columns := columns df;
     rows := map (fun T : Timestamp =>
                    (T, match locate T (rows df) None with
                        | Some r => snd r
                        | None => nan_row df
                        end)) idx |}.

(** [df.reindex(index=target, method='pad')].  [index=None], or a target
    equal to the frame's index, gives the frame as it is.  Otherwise the
    frame's index must have no repeated label
    ("cannot reindex on an axis with duplicate labels") and be increasing or
    decreasing ("index must be monotonic increasing or decreasing"):
    [ValueError] if not. *)
Definition reindex_pad (df : DataFrame) (target : option Index) : result DataFrame :=
  match target with
  | None => Ok df
  | Some idx =>
      if bool_decide (index df = idx) then Ok df
      else if negb (is_unique (index df)) then Raise ValueError
      else if is_monotonic_increasing (index df)
      then Ok (take_located pad_locate df idx)
      else if is_monotonic_decreasing (index df)
      then Ok (take_located pad_locate_decreasing df idx)
      else Raise ValueError
  end.

(** [df.copy()] *)
Definition copy (df : DataFrame) : DataFrame := df.

(** [df.iterrows()], as the list of rows still to be produced. *)
Definition iterrows (df : DataFrame) : list Row := rows df.

(** * The handler object

    Both classes keep the same attributes.  [symbol_data] holds the loaded
    frame of a symbol during construction and the row iterator over its
    aligned table afterwards.  The loader's own settings ([csv_dir], the
    dates) are arguments of the loading functions.  [stdout] is not an
    attribute: it is what [print] has written, carried with the handler. *)

Inductive SymData : Set :=
  | Frame (df : DataFrame)
  | RowIter (remaining : list Row).

(** The tuple [(symbol, row[0], row[1][0])]. *)
Abbreviation Bar := (string * Z * option Q)%type (only parsing).

Inductive Event : Set := MarketEvent.

Record Handler : Set := mkHandler {
  events : list Event;
  symbol_list : list string;
  symbol_data : gmap string SymData;
  symbol_dataframe : gmap string DataFrame;
  latest_symbol_data : gmap string (list Bar);
  all_data : gmap string DataFrame;
  continue_backtest : bool;
  time_col : Z;
  price_col : Z;
  stdout : list string
}.

Definition set_events (f : list Event -> list Event) (h : Handler) : Handler :=
  mkHandler (f (events h)) (symbol_list h) (symbol_data h) (symbol_dataframe h)
    (latest_symbol_data h) (all_data h) (continue_backtest h) (time_col h)
    (price_col h) (stdout h).

Definition set_symbol_data (f : gmap string SymData -> gmap string SymData)
    (h : Handler) : Handler :=
  mkHandler (events h) (symbol_list h) (f (symbol_data h)) (symbol_dataframe h)
    (latest_symbol_data h) (all_data h) (continue_backtest h) (time_col h)
    (price_col h) (stdout h).

Definition set_symbol_dataframe (f : gmap string DataFrame -> gmap string DataFrame)
    (h : Handler) : Handler :=
  mkHandler (events h) (symbol_list h) (symbol_data h) (f (symbol_dataframe h))
    (latest_symbol_data h) (all_data h) (continue_backtest h) (time_col h)
    (price_col h) (stdout h).

Definition set_latest_symbol_data
    (f : gmap string (list Bar) -> gmap string (list Bar)) (h : Handler) : Handler :=
  mkHandler (events h) (symbol_list h) (symbol_data h) (symbol_dataframe h)
    (f (latest_symbol_data h)) (all_data h) (continue_backtest h) (time_col h)
    (price_col h) (stdout h).

Definition set_all_data (f : gmap string DataFrame -> gmap string DataFrame)
    (h : Handler) : Handler :=
  mkHandler (events h) (symbol_list h) (symbol_data h) (symbol_dataframe h)
    (latest_symbol_data h) (f (all_data h)) (continue_backtest h) (time_col h)
    (price_col h) (stdout h).

Definition set_continue_backtest (b : bool) (h : Handler) : Handler :=
  mkHandler (events h) (symbol_list h) (symbol_data h) (symbol_dataframe h)
    (latest_symbol_data h) (all_data h) b (time_col h) (price_col h) (stdout h).

Definition set_stdout (f : list string -> list string) (h : Handler) : Handler :=
  mkHandler (events h) (symbol_list h) (symbol_data h) (symbol_dataframe h)
    (latest_symbol_data h) (all_data h) (continue_backtest h) (time_col h)
    (price_col h) (f (stdout h)).

(** * Methods as computations on the handler

    A method takes the handler and gives back a value or a raised exception,
    together with the handler as the call left it: attribute writes made
    before an exception stay. *)

Definition M (A : Type) : Type := Handler -> result A * Handler.

Definition ret {A} (a : A) : M A := fun h => (Ok a, h).

Definition bind {A B} (m : M A) (k : A -> M B) : M B :=
  fun h =>
    match m h with
    | (Ok a, h') => k a h'
    | (Raise e, h') => (Raise e, h')
    end.

Definition raise {A} (e : exn) : M A := fun h => (Raise e, h).

Definition lift {A} (r : result A) : M A := fun h => (r, h).

Definition gets {A} (f : Handler -> A) : M A := fun h => (Ok (f h), h).

Definition modify (f : Handler -> Handler) : M unit := fun h => (Ok tt, f h).

(** [try: m except e: handler] *)
Definition try_except {A} (m : M A) (e : exn) (handler : M A) : M A :=
  fun h =>
    match m h with
    | (Raise e', h') => if decide (e' = e) then handler h' else (Raise e', h')
    | ok => ok
    end.

Notation "'let!' x := m 'in' k" := (bind m (fun x => k))
  (at level 10, x name, m at level 100, k at level 200, only parsing).
Notation "'do!' m 'in' k" := (bind m (fun _ => k))
  (at level 10, m at level 100, k at level 200, only parsing).

(** [for x in l: body(x)] *)
Fixpoint for_each {A} (l : list A) (body : A -> M unit) : M unit :=
  match l with
  | [] => ret tt
  | x :: l' => do! body x in for_each l' body
  end.

(** A [for] loop that rebinds one local variable. *)
Fixpoint for_fold {A S} (l : list A) (body : S -> A -> M S) (acc : S) : M S :=
  match l with
  | [] => ret acc
  | x :: l' => let! acc' := body acc x in for_fold l' body acc'
  end.

(** [self.symbol_data[symbol]], [self.symbol_dataframe[symbol]] and
    [self.latest_symbol_data[symbol]] *)
Definition symbol_data_at (symbol : string) : M SymData :=
  fun h =>
    match symbol_data h !! symbol with
    | Some d => (Ok d, h)
    | None => (Raise KeyError, h)
    end.

Definition symbol_dataframe_at (symbol : string) : M DataFrame :=
  fun h =>
    match symbol_dataframe h !! symbol with
    | Some d => (Ok d, h)
    | None => (Raise KeyError, h)
    end.

Definition latest_symbol_data_at (symbol : string) : M (list Bar) :=
  fun h =>
    match latest_symbol_data h !! symbol with
    | Some d => (Ok d, h)
    | None => (Raise KeyError, h)
    end.

(** An attribute of a frame ([.index], [.reindex]) asked of a row iterator
    is an [AttributeError]. *)
Definition as_frame (d : SymData) : M DataFrame :=
  match d with
  | Frame df => ret df
  | RowIter _ => raise AttributeError
  end.

(** * More of pandas: column assignment *)

Definition values (s : Series) : list cell := map snd s.

(** Value of a Series at a label; NaN when the label is not there. *)
Fixpoint at_label (T : Timestamp) (s : Series) : cell :=
  match s with
  | [] => NaN
  | (T', v) :: s' => if decide (T' = T) then v else at_label T s'
  end.

(** Alignment of an assigned Series on the frame's index: values are taken as
    they are when the two indexes are equal, by label otherwise, which pandas
    refuses when the labels of the Series repeat. *)
Definition align (idx : Index) (s : Series) : result (list cell) :=
  if decide (map fst s = idx) then Ok (values s)
  else if decide (NoDup (map fst s)) then Ok (map (fun T => at_label T s) idx)
  else Raise ValueError.

(** Writing one cell of a row: position [i] when the column exists, a new
    last cell otherwise. *)
Definition put_cell (pos : option nat) (r : Row) (v : cell) : Row :=
  match pos with
  | Some i => (fst r, <[i := v]> (snd r))
  | None => (fst r, snd r ++ [v])
  end.

(** [df[name] = s] for a Series or a one-column frame [s]. *)
Definition setitem (df : DataFrame) (name : string) (s : Series) : result DataFrame :=
  try! vs := align (index df) s in
  let pos := get_loc name (columns df) in
  Ok {| columns := match pos with
                   | Some _ => columns df
                   | None => columns df ++ [name]
                   end;
        rows := zip_with (put_cell pos) (rows df) vs |}.

(** * Doubles and the frame of the report

    The arithmetic of [pct_change], of [1.0 + s] and of [cumprod] is that of
    IEEE 754 binary64: every operation is rounded to the nearest double, ties
    to even, and may give an infinity or NaN.  [SpecFloat] defines these
    operations on sign, mantissa and exponent; 53 and 1024 are the precision
    and the exponent bound of binary64. *)

Abbreviation double := spec_float (only parsing).

Definition fadd : double -> double -> double := SFadd 53 1024.
Definition fsub : double -> double -> double := SFsub 53 1024.
Definition fmul : double -> double -> double := SFmul 53 1024.
Definition fdiv : double -> double -> double := SFdiv 53 1024.

(** [1.0] *)
Definition fone : double := S754_finite false 4503599627370496 (-52).

(** [np.isnan] *)
Definition isna (x : double) : bool :=
  match x with
  | S754_nan => true
  | _ => false
  end.

(** The double of a rational: the rational itself when it is the value of a
    double, the nearest double otherwise (numerator and denominator are exact
    as mantissas of unbounded size, and the division rounds once). *)
Definition to_double (q : Q) : double :=
  match Qnum q with
  | Z0 => S754_zero false
  | Zpos n => fdiv (S754_finite false n 0) (S754_finite false (Qden q) 0)
  | Zneg n => fdiv (S754_finite true n 0) (S754_finite false (Qden q) 0)
  end.

(** The double that a price cell stands for. *)
Definition cell_double (c : cell) : double :=
  match c with
  | Some q => to_double q
  | None => S754_nan
  end.

(** Frames and Series of doubles, with the operations of pandas that
    [create_baseline_dataframe] uses on them. *)
Module float64.

Abbreviation Series := (list (Z * spec_float)) (only parsing).

Record DataFrame : Set := mkDataFrame {
  columns : list string;
  rows : list (Z * list spec_float)
}.

(** A column of prices as the doubles it holds. *)
Definition of_prices (s : list (Z * option Q)) : Series :=
  map (fun p : Z * option Q => (fst p, cell_double (snd p))) s.

Definition index (df : DataFrame) : Index := map fst (rows df).

Definition iat (i : nat) (cells : list double) : double := nth i cells S754_nan.

(** [df[name]] *)
Definition getitem (df : DataFrame) (name : string) : result Series :=
  match get_loc name (columns df) with
  | None => Raise KeyError
  | Some i => Ok (map (fun r : Z * list double => (fst r, iat i (snd r))) (rows df))
  end.

(** [pd.DataFrame(series)] *)
Definition to_frame (name : string) (s : Series) : DataFrame :=
  {| columns := [name];
     rows := map (fun p : Z * double => (fst p, [snd p])) s |}.

(** [df.columns = names] *)
Definition set_columns (names : list string) (df : DataFrame) : result DataFrame :=
  if decide (length names = length (columns df))
  then Ok {| columns := names; rows := rows df |}
  else Raise ValueError.

Definition values (s : Series) : list double := map snd s.

Definition with_values (s : Series) (vs : list double) : Series :=
  zip (map fst s) vs.

Fixpoint at_label (T : Timestamp) (s : Series) : double :=
  match s with
  | [] => S754_nan
  | (T', v) :: s' => if decide (T' = T) then v else at_label T s'
  end.

Definition align (idx : Index) (s : Series) : result (list double) :=
  if decide (map fst s = idx) then Ok (values s)
  else if decide (NoDup (map fst s)) then Ok (map (fun T => at_label T s) idx)
  else Raise ValueError.

Definition put_cell (pos : option nat) (r : Z * list double) (v : double)
    : Z * list double :=
  match pos with
  | Some i => (fst r, <[i := v]> (snd r))
  | None => (fst r, snd r ++ [v])
  end.

(** [df[name] = s] *)
Definition setitem (df : DataFrame) (name : string) (s : Series) : result DataFrame :=
  try! vs := align (index df) s in
  let pos := get_loc name (columns df) in
  Ok {| columns := match pos with
                   | Some _ => columns df
                   | None => columns df ++ [name]
                   end;
        rows := zip_with (put_cell pos) (rows df) vs |}.

(** [fillna(method='pad')] *)
Fixpoint ffill (last : double) (vs : list double) : list double :=
  match vs with
  | [] => []
  | v :: vs' => if isna v then last :: ffill last vs' else v :: ffill v vs'
  end.

(** [shift(1)] *)
Definition shift (vs : list double) : list double :=
  take (length vs) (S754_nan :: vs).

(** [s.pct_change()]: [filled / filled.shift(1) - 1] over the forward-filled
    values ([fill_method='pad'], the default of pandas before version 3). *)
Definition pct_change (s : Series) : Series :=
  let filled := ffill S754_nan (values s) in
  with_values s (zip_with (fun cur prev => fsub (fdiv cur prev) fone)
                          filled (shift filled)).

(** [1.0 + s] *)
Definition one_plus (s : Series) : Series :=
  with_values s (map (fadd fone) (values s)).

(** [np.cumprod]: the first value as it is, then each product of the running
    value and the next one. *)
Fixpoint accumulate (acc : double) (vs : list double) : list double :=
  match vs with
  | [] => []
  | v :: vs' => fmul acc v :: accumulate (fmul acc v) vs'
  end.

Definition np_cumprod (vs : list double) : list double :=
  match vs with
  | [] => []
  | v :: vs' => v :: accumulate v vs'
  end.

(** [s.cumprod()]: the NaN entries are set to [1.0], the running product is
    taken, and the entries that were NaN are set back to NaN. *)
Definition cumprod (s : Series) : Series :=
  let vs := values s in
  let products := np_cumprod (map (fun v => if isna v then fone else v) vs) in
  with_values s (zip_with (fun v p => if isna v then S754_nan else p) vs products).

End float64.

(** * The replay engine

    [get_latest_data], [_get_new_data], [update_latest_data] and
    [create_baseline_dataframe] have the same text in both classes. *)

(** Python's [l[start:]] *)
Definition slice_from {A} (start : Z) (l : list A) : list A :=
  let len := Z.of_nat (length l) in
  let lo := if start <? 0 then Z.max 0 (start + len) else Z.min start len in
  drop (Z.to_nat lo) l.

(** [next(self._get_new_data(symbol))]: a fresh generator around the shared
    row iterator is run to its first [yield], which takes one row off the
    iterator; the loop ending is [StopIteration].  A handler in use never
    has a frame in [symbol_data] (see [reachable_cursors]); iterating one
    would yield column labels, and the model stops there with [TypeError]. *)
Definition _get_new_data (symbol : string) : M Bar :=
  let! d := symbol_data_at symbol in
  match d with
  | RowIter [] => raise StopIteration
  | RowIter (row :: remaining) =>
      do! modify (set_symbol_data <[symbol := RowIter remaining]>) in
      match snd row with
      | [] => raise IndexError
      | price :: _ => ret (symbol, fst row, price)
      end
  | Frame _ => raise TypeError
  end.

Definition get_latest_data (symbol : string) (N : Z) : M (list Bar) :=
  try_except
    (let! buffer := latest_symbol_data_at symbol in
     ret (slice_from (- N) buffer))
    KeyError
    (do! modify (set_stdout (fun out => out ++ ["{symbol} is not a valid symbol."])) in
     (* [print] returned None: [None.format] *)
     raise AttributeError).

(** The body of the loop of [update_latest_data], for one symbol. *)
Definition update_symbol (symbol : string) : M unit :=
  let! data :=
    try_except
      (let! bar := _get_new_data symbol in ret (Some bar))
      StopIteration
      (do! modify (set_continue_backtest false) in ret None) in
  match data with
  | Some bar =>
      let! buffer := latest_symbol_data_at symbol in
      modify (set_latest_symbol_data <[symbol := buffer ++ [bar]]>)
  | None => ret tt
  end.

Definition update_latest_data : M unit :=
  let! symbols := gets symbol_list in
  do! for_each symbols update_symbol in
  modify (set_events (fun queue => queue ++ [MarketEvent])).

(** The body of the loop of [create_baseline_dataframe], for one symbol;
    [dataframe] is the report built so far.  [pd.DataFrame(df['Close'])] is
    taken as a frame of its own: assigning to a column of the report writes
    nothing into the symbol's table.  The report holds the doubles of the
    closing prices, and then what the arithmetic makes of them. *)
Definition baseline_symbol (dataframe : option float64.DataFrame) (symbol : string)
    : M (option float64.DataFrame) :=
  let! df := symbol_dataframe_at symbol in
  let! close := lift (getitem df "Close") in
  let close := float64.of_prices close in
  let! dataframe :=
    match dataframe with
    | None => lift (float64.set_columns [symbol] (float64.to_frame "Close" close))
    | Some d => lift (float64.setitem d symbol close)
    end in
  let! col := lift (float64.getitem dataframe symbol) in
  let! dataframe := lift (float64.setitem dataframe symbol (float64.pct_change col)) in
  let! col := lift (float64.getitem dataframe symbol) in
  let! dataframe :=
    lift (float64.setitem dataframe symbol (float64.cumprod (float64.one_plus col))) in
  ret (Some dataframe).

Definition create_baseline_dataframe : M (option float64.DataFrame) :=
  let! symbols := gets symbol_list in
  for_fold symbols baseline_symbol None.

(** * Construction *)

Inductive DataSource : Set := NASDAQ | YAHOO | KRAKEN.

#[global] Instance DataSource_eq_dec : EqDecision DataSource.
Proof. solve_decision. Defined.

Definition store_frame (symbol : string) (df : DataFrame) : M unit :=
  modify (set_symbol_data <[symbol := Frame df]>).

(** The two loops of [_open_convert_csv_files] and of
    [_load_convert_quandl_data], which differ in the parse call only.

    First loop, for one symbol; [combined_index] is the local variable.  The
    value of [combined_index.union(...)] is not bound to anything:
    [combined_index] stays the index of the first symbol. *)
Definition load_symbol (parse : string -> M unit)
    (combined_index : option Index) (symbol : string) : M (option Index) :=
  do! parse symbol in
  let! d := symbol_data_at symbol in
  let! df := as_frame d in
  let combined_index :=
    match combined_index with
    | None => index df
    | Some ci => let _ := Index_union ci (index df) in ci
    end in
  do! modify (set_latest_symbol_data <[symbol := []]>) in
  ret (Some combined_index).

(** Second loop, for one symbol. *)
Definition align_symbol (combined_index : option Index) (symbol : string) : M unit :=
  let! d := symbol_data_at symbol in
  let! df := as_frame d in
  let! aligned := lift (reindex_pad df combined_index) in
  do! modify (set_symbol_dataframe <[symbol := aligned]>) in
  let! aligned := symbol_dataframe_at symbol in
  do! modify (set_all_data <[symbol := copy aligned]>) in
  let! aligned := symbol_dataframe_at symbol in
  modify (set_symbol_data <[symbol := RowIter (iterrows aligned)]>).

Definition load_and_align (parse : string -> M unit) : M unit :=
  let! symbols := gets symbol_list in
  let! combined_index := for_fold symbols (load_symbol parse) None in
  for_each symbols (align_symbol combined_index).

(** The attributes as [__init__] sets them before loading. *)
Definition fresh (events : list Event) (symbol_list : list string) : Handler :=
  {| events := events;
     symbol_list := symbol_list;
     symbol_data := ∅;
     symbol_dataframe := ∅;
     latest_symbol_data := ∅;
     all_data := ∅;
     continue_backtest := true;
     time_col := 1;
     price_col := 2;
     stdout := [] |}.

Module HistoricCSVDataHandler.

(** [pd.read_csv(os.path.join(self.csv_dir, symbol + '.csv'), header=0,
  index_col=0, parse_dates=True)]: the directory is given by the parsed
  table of each of its files. *)
Definition read_csv (csv_dir : gmap string DataFrame) (symbol : string)
  : result DataFrame :=
match csv_dir !! (symbol +:+ ".csv") with
| Some df => Ok df
| None => Raise FileNotFoundError
end.

Definition parse_yahoo_csv (csv_dir : gmap string DataFrame) (symbol : string)
  : M unit :=
let! df := lift (read_csv csv_dir symbol) in
store_frame symbol df.

Definition parse_nasdaq_csv (csv_dir : gmap string DataFrame) (symbol : string)
  : M unit :=
let! tmp := lift (try! df := read_csv csv_dir symbol in Ok (iloc_reversed df)) in
let! closing := lift (getitem tmp "Closing price") in
do! store_frame symbol (to_frame "Closing price" closing) in
let! d := symbol_data_at symbol in
let! df := as_frame d in
let! df := lift (set_columns ["Close"] df) in
do! store_frame symbol df in
let! closing := lift (getitem tmp "Closing price") in
let! df := lift (setitem df "Close" closing) in
do! store_frame symbol df in
let! df := lift (where_close_positive df) in
store_frame symbol df.

Definition _open_convert_csv_files (csv_dir : gmap string DataFrame)
  (source : DataSource) : M unit :=
load_and_align
  (fun symbol =>
     if decide (source = NASDAQ) then parse_nasdaq_csv csv_dir symbol
     else parse_yahoo_csv csv_dir symbol).

Definition __init__ (events : list Event) (csv_dir : gmap string DataFrame)
  (symbol_list : list string) (source : DataSource) : result unit * Handler :=
_open_convert_csv_files csv_dir source (fresh events symbol_list).

End HistoricCSVDataHandler.

Module QuandlDataHandler.

Section Provider.
(** [quandl.get(code, start_date=..., end_date=...)] and
[datetime.today().strftime('%Y-%m-%d')] *)
Variable quandl_get : string -> string -> string -> result DataFrame.
Variable today : string.

Definition _get_nasdaq_data (start_date end_date : string) (symbol : string)
: M unit :=
  let! df := lift (quandl_get ("NASDAQOMX/" +:+ symbol) start_date end_date) in
  do! store_frame symbol df in
  let! df := lift (drop_columns
                 ["High"; "Low"; "Total Market Value"; "Dividend Market Value"]
                 df) in
  do! store_frame symbol df in
  let! df := lift (set_columns ["Close"] df) in
  do! store_frame symbol df in
  let! df := lift (where_close_positive df) in
  store_frame symbol df.

Definition _load_convert_quandl_data (start_date end_date : string) : M unit :=
  load_and_align (_get_nasdaq_data start_date end_date).

Definition __init__ (events : list Event) (symbol_list : list string)
(api_key : string) (start_date : string) (end_date : option string)
: result unit * Handler :=
  let end_date := match end_date with Some d => d | None => today end in
  _load_convert_quandl_data start_date end_date (fresh events symbol_list).
End Provider.

End QuandlDataHandler.

(** * Calls on a handler *)

Inductive call : Set :=
  | Update
  | GetLatest (symbol : string) (N : Z)
  | Baseline.

(** The handler after a call, whether the call returned or raised. *)
Definition exec (c : call) (h : Handler) : Handler :=
  match c with
  | Update => snd (update_latest_data h)
  | GetLatest symbol N => snd (get_latest_data symbol N h)
  | Baseline => snd (create_baseline_dataframe h)
  end.

Definition run (cs : list call) (h : Handler) : Handler :=
  foldl (fun h c => exec c h) h cs.

(** [n] ticks *)
Fixpoint ticks (n : nat) (h : Handler) : Handler :=
  match n with
  | O => h
  | S n' => ticks n' (snd (update_latest_data h))
  end.

(** * Reasoning about computations *)

Ltac munfold :=
  unfold bind, ret, raise, lift, gets, modify, try_except,
    symbol_data_at, symbol_dataframe_at, latest_symbol_data_at, as_frame,
    store_frame in *.

Lemma bind_Ok {A B} (m : M A) (k : A -> M B) h a h' :
  m h = (Ok a, h') -> bind m k h = k a h'.
Proof. intros E. unfold bind. by rewrite E. Qed.

Lemma bind_Raise {A B} (m : M A) (k : A -> M B) h e h' :
  m h = (Raise e, h') -> bind m k h = (Raise e, h').
Proof. intros E. unfold bind. by rewrite E. Qed.

Lemma bind_inv_Ok {A B} (m : M A) (k : A -> M B) h b h2 :
  bind m k h = (Ok b, h2) ->
  exists a h1, m h = (Ok a, h1) /\ k a h1 = (Ok b, h2).
Proof.
  unfold bind. destruct (m h) as [[a|e] h1]; intros E.
  - by exists a, h1.
  - discriminate.
Qed.

Lemma for_each_app {A} (l1 l2 : list A) body h :
  for_each (l1 ++ l2) body h =
  match for_each l1 body h with
  | (Ok _, h1) => for_each l2 body h1
  | (Raise e, h1) => (Raise e, h1)
  end.
Proof.
  revert h. induction l1 as [|x l1 IH]; intros h; simpl; [done|].
  unfold bind. destruct (body x h) as [[[]|e] h1]; [apply IH | done].
Qed.

(** What one symbol's turn does, case by case. *)
Lemma update_symbol_eq symbol h :
  update_symbol symbol h =
  match symbol_data h !! symbol with
  | None => (Raise KeyError, h)
  | Some (Frame _) => (Raise TypeError, h)
  | Some (RowIter []) => (Ok tt, set_continue_backtest false h)
  | Some (RowIter (row :: remaining)) =>
      let h1 := set_symbol_data <[symbol := RowIter remaining]> h in
      match snd row with
      | [] => (Raise IndexError, h1)
      | price :: _ =>
          match latest_symbol_data h !! symbol with
          | Some buffer =>
              (Ok tt,
               set_latest_symbol_data
                 <[symbol := buffer ++ [(symbol, fst row, price)]]> h1)
          | None => (Raise KeyError, h1)
          end
      end
  end.
Proof.
  unfold update_symbol, _get_new_data. munfold.
  destruct (symbol_data h !! symbol) as [[df|[|row remaining]]|]; simpl; try done.
  destruct (snd row) as [|price cells]; simpl; [done|].
  by destruct (latest_symbol_data h !! symbol).
Qed.

Ltac case_update_symbol symbol h :=
  rewrite (update_symbol_eq symbol h);
  destruct (symbol_data h !! symbol) as [[?df|[|[?T [|?price ?cells]] ?remaining]]|] eqn:?Hcursor;
  simpl;
  try destruct (latest_symbol_data h !! symbol) as [?buffer|] eqn:?Hbuffer;
  simpl.

(** A turn leaves the universe, the queue, the tables and the output alone. *)
Lemma update_symbol_frame symbol h :
  let h' := snd (update_symbol symbol h) in
  symbol_list h' = symbol_list h /\ events h' = events h /\
  symbol_dataframe h' = symbol_dataframe h /\ all_data h' = all_data h /\
  stdout h' = stdout h.
Proof. case_update_symbol symbol h; done. Qed.

(** A turn may clear the running flag and never sets it. *)
Lemma update_symbol_flag symbol h :
  continue_backtest (snd (update_symbol symbol h)) = false \/
  continue_backtest (snd (update_symbol symbol h)) = continue_backtest h.
Proof. case_update_symbol symbol h; auto. Qed.

(** A turn appends at most one bar, and only to its own symbol's buffer. *)
Lemma update_symbol_buffer symbol h s buffer :
  latest_symbol_data h !! s = Some buffer ->
  exists suffix,
    (length suffix <= 1)%nat /\
    latest_symbol_data (snd (update_symbol symbol h)) !! s = Some (buffer ++ suffix) /\
    (s <> symbol -> suffix = []).
Proof.
  intros Hs.
  case_update_symbol symbol h;
    try (exists []; rewrite app_nil_r; simpl; split_and!; [lia | done | done]).
  destruct (decide (s = symbol)) as [->|Hne].
  - exists [(symbol, T, price)]. rewrite lookup_insert_eq.
    assert (buffer0 = buffer) as -> by congruence.
    split_and!; [simpl; lia | done | done].
  - exists []. rewrite lookup_insert_ne, app_nil_r by done.
    split_and!; [simpl; lia | done | done].
Qed.

Lemma update_symbol_buffer_None symbol h s :
  latest_symbol_data h !! s = None ->
  latest_symbol_data (snd (update_symbol symbol h)) !! s = None.
Proof.
  intros Hs. case_update_symbol symbol h; try done.
  rewrite lookup_insert_ne; [done|]. intros ->. congruence.
Qed.

(** A turn touches no other symbol's cursor. *)
Lemma update_symbol_cursor_other symbol h s :
  s <> symbol ->
  symbol_data (snd (update_symbol symbol h)) !! s = symbol_data h !! s.
Proof.
  intros Hne. case_update_symbol symbol h; try done;
    by rewrite lookup_insert_ne.
Qed.

Lemma for_each_cons_snd {A} (x : A) l body h :
  snd (for_each (x :: l) body h) =
  match body x h with
  | (Ok _, h1) => snd (for_each l body h1)
  | (Raise _, h1) => h1
  end.
Proof. simpl. unfold bind. by destruct (body x h) as [[[]|e] h1]. Qed.

(** An induction principle for what holds of the handler after the loop over
    the symbols, whether it ran to its end or was left by an exception. *)
Lemma for_each_update_ind (P : Handler -> Handler -> Prop) :
  (forall h, P h h) ->
  (forall symbol h h2, P (snd (update_symbol symbol h)) h2 -> P h h2) ->
  forall l h, P h (snd (for_each l update_symbol h)).
Proof.
  intros Hrefl Hstep l. induction l as [|symbol l IH]; intros h.
  - apply Hrefl.
  - rewrite for_each_cons_snd.
    destruct (update_symbol symbol h) as [[[]|e] h1] eqn:E.
    + apply (Hstep symbol). rewrite E. apply IH.
    + apply (Hstep symbol). rewrite E. apply Hrefl.
Qed.

Lemma for_each_update_frame l h :
  let h' := snd (for_each l update_symbol h) in
  symbol_list h' = symbol_list h /\ events h' = events h /\
  symbol_dataframe h' = symbol_dataframe h /\ all_data h' = all_data h /\
  stdout h' = stdout h.
Proof.
  apply (for_each_update_ind (fun h h' =>
    symbol_list h' = symbol_list h /\ events h' = events h /\
    symbol_dataframe h' = symbol_dataframe h /\ all_data h' = all_data h /\
    stdout h' = stdout h)); [done|].
  intros symbol h0 h2 (-> & -> & -> & -> & ->). apply update_symbol_frame.
Qed.

Lemma for_each_update_flag l h :
  continue_backtest h = false ->
  continue_backtest (snd (for_each l update_symbol h)) = false.
Proof.
  apply (for_each_update_ind (fun h h' =>
    continue_backtest h = false -> continue_backtest h' = false)); [done|].
  intros symbol h0 h2 IH H0. apply IH.
  destruct (update_symbol_flag symbol h0); congruence.
Qed.

Lemma for_each_update_buffer_notin l h s :
  s ∉ l ->
  latest_symbol_data (snd (for_each l update_symbol h)) !! s =
  latest_symbol_data h !! s.
Proof.
  revert h. induction l as [|symbol l IH]; intros h Hnotin; [done|].
  apply not_elem_of_cons in Hnotin as [Hne Hnotin].
  assert (latest_symbol_data (snd (update_symbol symbol h)) !! s =
          latest_symbol_data h !! s) as Hstep.
  { destruct (latest_symbol_data h !! s) as [buffer|] eqn:Hs.
    - destruct (update_symbol_buffer symbol h s buffer Hs) as (suffix & _ & -> & Hnil).
      by rewrite (Hnil Hne), app_nil_r.
    - by apply update_symbol_buffer_None. }
  rewrite for_each_cons_snd.
  destruct (update_symbol symbol h) as [[[]|e] h1] eqn:E; simpl in Hstep.
  - by rewrite IH.
  - done.
Qed.

(** With every symbol listed once, the loop appends at most one bar to a
    buffer and leaves what was buffered in place. *)
Lemma for_each_update_buffer l h s buffer :
  NoDup l ->
  latest_symbol_data h !! s = Some buffer ->
  exists suffix,
    (length suffix <= 1)%nat /\
    latest_symbol_data (snd (for_each l update_symbol h)) !! s = Some (buffer ++ suffix).
Proof.
  revert h. induction l as [|symbol l IH]; intros h Hnodup Hs.
  - exists []. rewrite app_nil_r. simpl. split; [lia | done].
  - apply NoDup_cons in Hnodup as [Hnotin Hnodup].
    destruct (update_symbol_buffer symbol h s buffer Hs) as (suffix & Hlen & Hstep & Hnil).
    rewrite for_each_cons_snd.
    destruct (update_symbol symbol h) as [[[]|e] h1] eqn:E; simpl in Hstep.
    + destruct (decide (s = symbol)) as [->|Hne].
      * exists suffix. split; [done|].
        by rewrite for_each_update_buffer_notin.
      * rewrite (Hnil Hne), app_nil_r in Hstep. by apply IH.
    + by exists suffix.
Qed.

Lemma update_latest_data_eq h :
  update_latest_data h =
  match for_each (symbol_list h) update_symbol h with
  | (Ok _, h1) => (Ok tt, set_events (fun queue => queue ++ [MarketEvent]) h1)
  | (Raise e, h1) => (Raise e, h1)
  end.
Proof.
  unfold update_latest_data. munfold.
  by destruct (for_each (symbol_list h) update_symbol h) as [[[]|e] h1].
Qed.

(** * What construction leaves behind *)

(** The calendar the tables are aligned on: the value of [combined_index]
    after the first loop. *)
Definition calendar (load : string -> result DataFrame) (symbols : list string)
    : option Index :=
  match symbols with
  | [] => None
  | first :: _ =>
      match load first with
      | Ok df => Some (index df)
      | Raise _ => None
      end
  end.

(** The handler right after a construction that returned, for the universe
    [symbols] whose loaded (native) frames are given by [load]. *)
Record loaded (load : string -> result DataFrame) (queue : list Event)
    (symbols : list string) (h : Handler) : Prop := {
  loaded_symbol_list : symbol_list h = symbols;
  loaded_events : events h = queue;
  loaded_running : continue_backtest h = true;
  loaded_NoDup : NoDup symbols;
  loaded_in : forall s, s ∈ symbols ->
    exists df aligned,
      load s = Ok df /\
      reindex_pad df (calendar load symbols) = Ok aligned /\
      symbol_dataframe h !! s = Some aligned /\
      symbol_data h !! s = Some (RowIter (rows aligned)) /\
      latest_symbol_data h !! s = Some [];
  loaded_out : forall s, s ∉ symbols ->
    latest_symbol_data h !! s = None /\ symbol_data h !! s = None
}.

Section Loading.
Variable parse : string -> M unit.
Variable load : string -> result DataFrame.

(** [parse] stores the frame that [load] computes, or raises as it does. *)
Hypothesis parse_load : forall s h,
match load s with
| Ok df => parse s h = (Ok tt, set_symbol_data <[s := Frame df]> h)
| Raise e => exists h', parse s h = (Raise e, h')
end.

Lemma load_symbol_eq acc s h :
match load s with
| Ok df =>
    load_symbol parse acc s h =
    (Ok (Some (match acc with None => index df | Some ci => ci end)),
     set_latest_symbol_data <[s := []]>
       (set_symbol_data <[s := Frame df]> h))
| Raise e => exists h', load_symbol parse acc s h = (Raise e, h')
end.
Proof.
pose proof (parse_load s h) as Hparse.
destruct (load s) as [df|e].
- unfold load_symbol. rewrite (bind_Ok _ _ _ _ _ Hparse).
  munfold. simpl. rewrite lookup_insert_eq. by destruct acc.
- destruct Hparse as [h' Hparse]. exists h'.
  unfold load_symbol. by rewrite (bind_Raise _ _ _ _ _ Hparse).
Qed.

Lemma first_pass l : forall acc h r h',
for_fold l (load_symbol parse) acc h = (Ok r, h') ->
r = match acc with
    | Some ci => Some ci
    | None => calendar load l
    end /\
(forall s, s ∈ l ->
   exists df, load s = Ok df /\ symbol_data h' !! s = Some (Frame df) /\
              latest_symbol_data h' !! s = Some []) /\
(forall s, s ∉ l ->
   symbol_data h' !! s = symbol_data h !! s /\
   latest_symbol_data h' !! s = latest_symbol_data h !! s) /\
symbol_list h' = symbol_list h /\ events h' = events h /\
continue_backtest h' = continue_backtest h /\
symbol_dataframe h' = symbol_dataframe h.
Proof.
induction l as [|x l IH]; intros acc h r h' Hrun.
- simpl in Hrun. unfold ret in Hrun. injection Hrun as <- <-.
  split_and!; try done; [by destruct acc | intros s Hs; by apply elem_of_nil in Hs].
- simpl in Hrun. apply bind_inv_Ok in Hrun as (acc1 & h1 & Hbody & Hrest).
  pose proof (load_symbol_eq acc x h) as Hx.
  destruct (load x) as [df|e] eqn:Hload; [|destruct Hx as [? Hx]; congruence].
  rewrite Hx in Hbody. injection Hbody as <- <-.
  apply IH in Hrest as (Hr & Hin & Hout & Hsl & Hev & Hflag & Hsdf).
  split_and!; try done.
  + simpl. rewrite Hload. by destruct acc.
  + intros s Hs. destruct (decide (s ∈ l)) as [Hl|Hl]; [by apply Hin|].
    apply elem_of_cons in Hs as [->|Hs]; [|done].
    exists df. destruct (Hout x Hl) as [-> ->]. simpl.
    by rewrite !lookup_insert_eq.
  + intros s Hs. apply not_elem_of_cons in Hs as [Hne Hs].
    destruct (Hout s Hs) as [-> ->]. simpl.
    by rewrite !lookup_insert_ne.
Qed.

Lemma align_symbol_eq ci s h :
align_symbol ci s h =
match symbol_data h !! s with
| None => (Raise KeyError, h)
| Some (RowIter _) => (Raise AttributeError, h)
| Some (Frame df) =>
    match reindex_pad df ci with
    | Ok aligned =>
        (Ok tt,
         set_symbol_data <[s := RowIter (rows aligned)]>
           (set_all_data <[s := aligned]>
              (set_symbol_dataframe <[s := aligned]> h)))
    | Raise e => (Raise e, h)
    end
end.
Proof.
unfold align_symbol. munfold.
destruct (symbol_data h !! s) as [[df|it]|]; simpl; try done.
destruct (reindex_pad df ci) as [aligned|e]; simpl; [|done].
rewrite lookup_insert_eq. simpl. by rewrite lookup_insert_eq.
Qed.

(** The second loop returns only when no symbol is listed twice: the second
  visit finds the row iterator where it expects the frame. *)
Lemma second_pass ci l : forall h h',
for_each l (align_symbol ci) h = (Ok tt, h') ->
NoDup l /\
(forall s, s ∈ l ->
   exists df aligned,
     symbol_data h !! s = Some (Frame df) /\
     reindex_pad df ci = Ok aligned /\
     symbol_dataframe h' !! s = Some aligned /\
     symbol_data h' !! s = Some (RowIter (rows aligned))) /\
(forall s, s ∉ l ->
   symbol_data h' !! s = symbol_data h !! s /\
   symbol_dataframe h' !! s = symbol_dataframe h !! s) /\
symbol_list h' = symbol_list h /\ events h' = events h /\
continue_backtest h' = continue_backtest h /\
latest_symbol_data h' = latest_symbol_data h.
Proof.
induction l as [|x l IH]; intros h h' Hrun.
- simpl in Hrun. unfold ret in Hrun. injection Hrun as <-.
  split_and!; try done; [constructor | intros s Hs; by apply elem_of_nil in Hs].
- simpl in Hrun. apply bind_inv_Ok in Hrun as ([] & h1 & Hbody & Hrest).
  rewrite align_symbol_eq in Hbody.
  destruct (symbol_data h !! x) as [[df|it]|] eqn:Hx; try discriminate.
  destruct (reindex_pad df ci) as [aligned|e] eqn:Hpad; try discriminate.
  injection Hbody as <-.
  apply IH in Hrest as (Hnodup & Hin & Hout & Hsl & Hev & Hflag & Hlatest).
  assert (x ∉ l) as Hxl.
  { intros Hxl. destruct (Hin x Hxl) as (df' & aligned' & Hframe & _).
    simpl in Hframe. rewrite lookup_insert_eq in Hframe. discriminate. }
  split_and!; try done.
  + by constructor.
  + intros s Hs. apply elem_of_cons in Hs as [->|Hs].
    * exists df, aligned. destruct (Hout x Hxl) as [-> ->]. simpl.
      by rewrite !lookup_insert_eq.
    * destruct (Hin s Hs) as (df' & aligned' & Hframe & Hpad' & Haligned & Hiter).
      exists df', aligned'. split_and!; try done.
      simpl in Hframe. rewrite lookup_insert_ne in Hframe; [done|].
      intros ->. done.
  + intros s Hs. apply not_elem_of_cons in Hs as [Hne Hs].
    destruct (Hout s Hs) as [-> ->]. simpl.
    by rewrite !lookup_insert_ne.
Qed.

Lemma load_and_align_loaded queue symbols h :
load_and_align parse (fresh queue symbols) = (Ok tt, h) ->
loaded load queue symbols h.
Proof.
unfold load_and_align. intros Hrun.
apply bind_inv_Ok in Hrun as (l & h0 & Hget & Hrun).
unfold gets in Hget. injection Hget as <- <-. simpl in Hrun.
apply bind_inv_Ok in Hrun as (ci & h1 & Hfirst & Hsecond).
apply first_pass in Hfirst as (-> & Hin1 & Hout1 & Hsl1 & Hev1 & Hflag1 & Hsdf1).
apply second_pass in Hsecond as (Hnodup & Hin2 & Hout2 & Hsl2 & Hev2 & Hflag2 & Hlatest2).
split.
- by rewrite Hsl2, Hsl1.
- by rewrite Hev2, Hev1.
- by rewrite Hflag2, Hflag1.
- done.
- intros s Hs.
  destruct (Hin1 s Hs) as (df & Hload & Hframe & Hbuf).
  destruct (Hin2 s Hs) as (df' & aligned & Hframe' & Hpad & Haligned & Hiter).
  assert (df' = df) as -> by congruence.
  exists df, aligned. by rewrite Hlatest2.
- intros s Hs. rewrite Hlatest2.
destruct (Hout1 s Hs) as [Hdata ->]. destruct (Hout2 s Hs) as [-> _].
by rewrite Hdata.
Qed.
End Loading.

(** * The native frame of a symbol

    What each loader stores for a symbol before alignment, as one function of
    the loader's input. *)

Definition nasdaq_csv_native (csv_dir : gmap string DataFrame) (symbol : string)
    : result DataFrame :=
  try! file := HistoricCSVDataHandler.read_csv csv_dir symbol in
  try! closing := getitem (iloc_reversed file) "Closing price" in
  where_close_positive (to_frame "Close" closing).

Definition csv_native (csv_dir : gmap string DataFrame) (source : DataSource)
    (symbol : string) : result DataFrame :=
  if decide (source = NASDAQ) then nasdaq_csv_native csv_dir symbol
  else HistoricCSVDataHandler.read_csv csv_dir symbol.

Definition quandl_native (quandl_get : string -> string -> string -> result DataFrame)
    (start_date end_date : string) (symbol : string) : result DataFrame :=
  try! df := quandl_get ("NASDAQOMX/" +:+ symbol) start_date end_date in
  try! df := drop_columns
               ["High"; "Low"; "Total Market Value"; "Dividend Market Value"] df in
  try! df := set_columns ["Close"] df in
  where_close_positive df.

Lemma set_symbol_data_insert_insert s a b h :
  set_symbol_data <[s := a]> (set_symbol_data <[s := b]> h) =
  set_symbol_data <[s := a]> h.
Proof. unfold set_symbol_data. simpl. by rewrite insert_insert_eq. Qed.

Lemma put_cell_same (closing : Series) :
  zip_with (put_cell (Some 0%nat))
    (map (fun p : Z * option Q => (fst p, [snd p])) closing) (values closing) =
  map (fun p : Z * option Q => (fst p, [snd p])) closing.
Proof. induction closing as [|[T v] closing IH]; simpl; [done|]. by rewrite IH. Qed.

(** Line 181 of [parse_nasdaq_csv] writes back the column that is there. *)
Lemma setitem_close_same (closing : Series) :
  setitem (to_frame "Close" closing) "Close" closing = Ok (to_frame "Close" closing).
Proof.
  unfold setitem, align, index. simpl.
  rewrite decide_True.
  - simpl. by rewrite put_cell_same.
  - rewrite map_map. by apply map_ext.
Qed.

Lemma parse_nasdaq_csv_load csv_dir s h :
  match nasdaq_csv_native csv_dir s with
  | Ok df =>
      HistoricCSVDataHandler.parse_nasdaq_csv csv_dir s h =
      (Ok tt, set_symbol_data <[s := Frame df]> h)
  | Raise e =>
      exists h', HistoricCSVDataHandler.parse_nasdaq_csv csv_dir s h = (Raise e, h')
  end.
Proof.
  unfold nasdaq_csv_native, HistoricCSVDataHandler.parse_nasdaq_csv.
  destruct (HistoricCSVDataHandler.read_csv csv_dir s) as [file|e]; simpl;
    [|by eexists].
  munfold. simpl.
  destruct (getitem (iloc_reversed file) "Closing price") as [closing|e] eqn:Hclosing;
    simpl; [|by eexists].
  rewrite lookup_insert_eq. simpl.
  change (setitem _ "Close" closing)
    with (setitem (to_frame "Close" closing) "Close" closing).
  rewrite setitem_close_same. simpl. unfold modify.
  by rewrite !set_symbol_data_insert_insert.
Qed.

Lemma parse_yahoo_csv_load csv_dir s h :
  match HistoricCSVDataHandler.read_csv csv_dir s with
  | Ok df =>
      HistoricCSVDataHandler.parse_yahoo_csv csv_dir s h =
      (Ok tt, set_symbol_data <[s := Frame df]> h)
  | Raise e =>
      exists h', HistoricCSVDataHandler.parse_yahoo_csv csv_dir s h = (Raise e, h')
  end.
Proof.
  unfold HistoricCSVDataHandler.parse_yahoo_csv. munfold.
  destruct (HistoricCSVDataHandler.read_csv csv_dir s); [done | by eexists].
Qed.

Lemma _get_nasdaq_data_load quandl_get start_date end_date s h :
  match quandl_native quandl_get start_date end_date s with
  | Ok df =>
      QuandlDataHandler._get_nasdaq_data quandl_get start_date end_date s h =
      (Ok tt, set_symbol_data <[s := Frame df]> h)
  | Raise e =>
      exists h',
        QuandlDataHandler._get_nasdaq_data quandl_get start_date end_date s h =
        (Raise e, h')
  end.
Proof.
  unfold quandl_native, QuandlDataHandler._get_nasdaq_data. munfold.
  destruct (quandl_get _ _ _) as [df0|e]; cbn [rbind]; [|by eexists].
  destruct (drop_columns
              ["High"; "Low"; "Total Market Value"; "Dividend Market Value"] df0)
    as [df1|e]; cbn [rbind]; [|by eexists].
  destruct (set_columns ["Close"] df1) as [df2|e]; cbn [rbind]; [|by eexists].
  destruct (where_close_positive df2) as [df3|e]; cbn [rbind]; [|by eexists].
  unfold modify. cbv beta iota.
  by rewrite !set_symbol_data_insert_insert.
Qed.

(** [built load h]: [h] is the handler that a constructor of one of the two
    classes returned, and [load] gives the native frames of its symbols. *)
Inductive built : (string -> result DataFrame) -> Handler -> Prop :=
  | built_csv queue csv_dir symbols source h :
      HistoricCSVDataHandler.__init__ queue csv_dir symbols source = (Ok tt, h) ->
      built (csv_native csv_dir source) h
  | built_quandl quandl_get today queue symbols api_key start_date end_date h :
      QuandlDataHandler.__init__ quandl_get today queue symbols api_key
        start_date end_date = (Ok tt, h) ->
      built (quandl_native quandl_get start_date (default today end_date)) h.

Lemma built_loaded load h :
  built load h -> exists queue, loaded load queue (symbol_list h) h.
Proof.
  intros [queue csv_dir symbols source h' Hinit
         |quandl_get today queue symbols api_key start_date end_date h' Hinit];
    exists queue.
  - unfold HistoricCSVDataHandler.__init__,
      HistoricCSVDataHandler._open_convert_csv_files in Hinit.
    eapply load_and_align_loaded in Hinit as Hloaded.
    + by rewrite (loaded_symbol_list _ _ _ _ Hloaded).
    + intros s h0. unfold csv_native. destruct (decide (source = NASDAQ)).
      * apply parse_nasdaq_csv_load.
      * apply parse_yahoo_csv_load.
  - unfold QuandlDataHandler.__init__,
      QuandlDataHandler._load_convert_quandl_data in Hinit.
    eapply load_and_align_loaded in Hinit as Hloaded.
    + by rewrite (loaded_symbol_list _ _ _ _ Hloaded).
    + intros s h0. destruct end_date; apply _get_nasdaq_data_load.
Qed.

(** * Reading the buffers and the report leaves the replay alone *)

Lemma get_latest_data_eq symbol N h :
  get_latest_data symbol N h =
  match latest_symbol_data h !! symbol with
  | Some buffer => (Ok (slice_from (- N) buffer), h)
  | None =>
      (Raise AttributeError,
       set_stdout (fun out => out ++ ["{symbol} is not a valid symbol."]) h)
  end.
Proof.
  unfold get_latest_data. munfold.
  by destruct (latest_symbol_data h !! symbol).
Qed.

(** Computations that only read the handler. *)
Definition readonly {A} (m : M A) : Prop := forall h, snd (m h) = h.

Lemma readonly_ret {A} (a : A) : readonly (ret a).
Proof. done. Qed.

Lemma readonly_lift {A} (r : result A) : readonly (lift r).
Proof. done. Qed.

Lemma readonly_bind {A B} (m : M A) (k : A -> M B) :
  readonly m -> (forall a, readonly (k a)) -> readonly (bind m k).
Proof.
  intros Hm Hk h. unfold bind. specialize (Hm h).
  destruct (m h) as [[a|e] h1]; simpl in Hm; subst h1; [apply Hk | done].
Qed.

Lemma readonly_symbol_dataframe_at symbol : readonly (symbol_dataframe_at symbol).
Proof.
  intros h. unfold symbol_dataframe_at. by destruct (symbol_dataframe h !! symbol).
Qed.

Lemma readonly_for_fold {A S} (l : list A) (body : S -> A -> M S) acc :
  (forall acc x, readonly (body acc x)) -> readonly (for_fold l body acc).
Proof.
  intros Hbody. revert acc. induction l as [|x l IH]; intros acc; simpl.
  - apply readonly_ret.
  - apply readonly_bind; [apply Hbody | intros acc'; apply IH].
Qed.

Lemma baseline_symbol_readonly dataframe symbol :
  readonly (baseline_symbol dataframe symbol).
Proof.
  unfold baseline_symbol.
  repeat first
    [ apply readonly_ret | apply readonly_lift | apply readonly_symbol_dataframe_at
    | apply readonly_bind; [|intros ?]
    | destruct dataframe ].
Qed.

Lemma create_baseline_dataframe_state h :
  snd (create_baseline_dataframe h) = h.
Proof.
  unfold create_baseline_dataframe.
  apply readonly_bind; [done|]. intros l.
  apply readonly_for_fold. intros acc x. apply baseline_symbol_readonly.
Qed.

(** * Invariants of a handler in use *)

Definition reachable (h : Handler) : Prop :=
  exists load h0 cs, built load h0 /\ h = run cs h0.

(** The universe lists every symbol once, and the buffers are those of the
    universe. *)
Record universe_ok (h : Handler) : Prop := {
  universe_NoDup : NoDup (symbol_list h);
  universe_buffers : forall s,
    s ∈ symbol_list h <-> is_Some (latest_symbol_data h !! s)
}.

Lemma loaded_universe_ok load queue h :
  loaded load queue (symbol_list h) h -> universe_ok h.
Proof.
  intros Hloaded. split.
  - apply (loaded_NoDup _ _ _ _ Hloaded).
  - intros s. split.
    + intros Hs.
      destruct (loaded_in _ _ _ _ Hloaded s Hs) as (df & aligned & _ & _ & _ & _ & ->).
      by eexists.
    + intros [buffer Hs]. destruct (decide (s ∈ symbol_list h)) as [|Hnotin]; [done|].
      destruct (loaded_out _ _ _ _ Hloaded s Hnotin) as [Hnone _].
    rewrite Hnone in Hs. discriminate.
Qed.

Lemma for_each_update_buffer_dom l h s :
  is_Some (latest_symbol_data (snd (for_each l update_symbol h)) !! s) <->
  is_Some (latest_symbol_data h !! s).
Proof.
  revert s. apply (for_each_update_ind (fun h h' => forall s,
    is_Some (latest_symbol_data h' !! s) <-> is_Some (latest_symbol_data h !! s)));
    [done|].
  intros symbol h0 h2 IH s. rewrite IH.
  destruct (latest_symbol_data h0 !! s) as [buffer|] eqn:Hs.
  - destruct (update_symbol_buffer symbol h0 s buffer Hs) as (suffix & _ & -> & _).
    split; by eexists.
  - by rewrite (update_symbol_buffer_None symbol h0 s Hs).
Qed.

Lemma update_latest_data_fields h :
  let h' := snd (update_latest_data h) in
  symbol_list h' = symbol_list h /\
  latest_symbol_data h' = latest_symbol_data (snd (for_each (symbol_list h) update_symbol h)) /\
  symbol_data h' = symbol_data (snd (for_each (symbol_list h) update_symbol h)) /\
  continue_backtest h' = continue_backtest (snd (for_each (symbol_list h) update_symbol h)).
Proof.
  rewrite update_latest_data_eq.
  pose proof (for_each_update_frame (symbol_list h) h) as (Hsl & _).
  destruct (for_each (symbol_list h) update_symbol h) as [[[]|e] h1]; simpl in *; done.
Qed.

Lemma exec_universe_ok c h : universe_ok h -> universe_ok (exec c h).
Proof.
  intros [Hnodup Hbuffers]. destruct c as [|symbol N|]; simpl.
  - destruct (update_latest_data_fields h) as (Hsl & Hlatest & _ & _).
    split; [by rewrite Hsl|].
    intros s. by rewrite Hsl, Hlatest, for_each_update_buffer_dom.
  - rewrite get_latest_data_eq.
    by destruct (latest_symbol_data h !! symbol).
  - by rewrite create_baseline_dataframe_state.
Qed.

Lemma run_universe_ok cs h : universe_ok h -> universe_ok (run cs h).
Proof.
  revert h. induction cs as [|c cs IH]; intros h Hok; [done|].
  apply IH. by apply exec_universe_ok.
Qed.

Lemma reachable_universe_ok h : reachable h -> universe_ok h.
Proof.
  intros (load & h0 & cs & Hbuilt & ->).
  apply run_universe_ok.
  destruct (built_loaded _ _ Hbuilt) as [queue Hloaded].
  by eapply loaded_universe_ok.
Qed.

(** A cursor stays a row iterator. *)
Lemma update_symbol_cursor_kind symbol h s :
  (exists remaining, symbol_data h !! s = Some (RowIter remaining)) ->
  exists remaining,
    symbol_data (snd (update_symbol symbol h)) !! s = Some (RowIter remaining).
Proof.
  intros [remaining Hs].
  case_update_symbol symbol h; try (by exists remaining);
    (destruct (decide (s = symbol)) as [->|Hne];
     [rewrite lookup_insert_eq; by eexists
     |rewrite lookup_insert_ne by done; by exists remaining]).
Qed.

(** On a handler in use every symbol of the universe has a row iterator for
    cursor: [_get_new_data] never meets a frame. *)
Lemma reachable_cursors h s :
  reachable h ->
  s ∈ symbol_list h ->
  exists remaining, symbol_data h !! s = Some (RowIter remaining).
Proof.
  intros (load & h0 & cs & Hbuilt & ->).
  destruct (built_loaded _ _ Hbuilt) as [queue Hloaded].
  assert (s ∈ symbol_list h0 ->
          exists remaining, symbol_data h0 !! s = Some (RowIter remaining)) as Hstart.
  { intros Hs.
    destruct (loaded_in _ _ _ _ Hloaded s Hs) as (df & aligned & _ & _ & _ & -> & _).
    by eexists. }
  clear Hbuilt Hloaded. revert h0 Hstart.
  induction cs as [|c cs IH]; intros h0 Hstart; simpl; [done|].
  apply IH. intros Hs.
  assert (symbol_list (exec c h0) = symbol_list h0) as Hsl.
  { destruct c as [|symbol N|]; simpl.
    - apply update_latest_data_fields.
    - rewrite get_latest_data_eq. by destruct (latest_symbol_data h0 !! symbol).
    - by rewrite create_baseline_dataframe_state. }
  rewrite Hsl in Hs. specialize (Hstart Hs).
  destruct c as [|symbol N|]; simpl.
  - destruct (update_latest_data_fields h0) as (_ & _ & -> & _).
    revert Hstart.
    apply (for_each_update_ind (fun h h' =>
      (exists remaining, symbol_data h !! s = Some (RowIter remaining)) ->
      exists remaining, symbol_data h' !! s = Some (RowIter remaining))); [done|].
    intros symbol h1 h2 Hnext H1. by apply Hnext, update_symbol_cursor_kind.
  - rewrite get_latest_data_eq. by destruct (latest_symbol_data h0 !! symbol).
  - by rewrite create_baseline_dataframe_state.
Qed.

(** No call changes the universe or the aligned tables. *)
Lemma exec_static c h :
  symbol_list (exec c h) = symbol_list h /\
  symbol_dataframe (exec c h) = symbol_dataframe h.
Proof.
  destruct c as [|symbol N|]; simpl.
  - rewrite update_latest_data_eq.
    pose proof (for_each_update_frame (symbol_list h) h) as (? & _ & ? & _).
    by destruct (for_each (symbol_list h) update_symbol h) as [[[]|e] h1].
  - rewrite get_latest_data_eq. by destruct (latest_symbol_data h !! symbol).
  - by rewrite create_baseline_dataframe_state.
Qed.

Lemma run_static cs : forall h,
  symbol_list (run cs h) = symbol_list h /\
  symbol_dataframe (run cs h) = symbol_dataframe h.
Proof.
  induction cs as [|c cs IH]; intros h; simpl; [done|].
  destruct (IH (exec c h)) as [-> ->]. apply exec_static.
Qed.

(** No call sets the running flag. *)
Lemma exec_flag c h :
  continue_backtest h = false -> continue_backtest (exec c h) = false.
Proof.
  intros Hflag. destruct c as [|symbol N|]; simpl.
  - destruct (update_latest_data_fields h) as (_ & _ & _ & ->).
    by apply for_each_update_flag.
  - rewrite get_latest_data_eq.
    by destruct (latest_symbol_data h !! symbol).
  - by rewrite create_baseline_dataframe_state.
Qed.

Lemma run_flag cs h :
  continue_backtest h = false -> continue_backtest (run cs h) = false.
Proof.
  revert h. induction cs as [|c cs IH]; intros h Hflag; [done|].
  apply IH. by apply exec_flag.
Qed.

Lemma _get_new_data_StopIteration symbol h :
  fst (_get_new_data symbol h) = Raise StopIteration ->
  symbol_data h !! symbol = Some (RowIter []).
Proof.
  unfold _get_new_data. munfold.
  destruct (symbol_data h !! symbol) as [[df|[|[T [|price cells]] remaining]]|];
    simpl; intros; done.
Qed.

(** * A worked universe

    Symbol A has five daily bars and symbol B the first three of those days,
    in NASDAQ-layout files (newest row first). *)

Definition nasdaq_file (closing : list (Z * Q)) : DataFrame :=
  {| columns := ["Closing price"; "Total volume"];
     rows := rev (map (fun p : Z * Q => (fst p, [Some (snd p); Some 1000%Q])) closing) |}.

(** A positive price, by numerator and denominator. *)
Definition price (p : positive * positive) : Q := Z.pos (fst p) # snd p.

Definition scenario_dir (a1 a2 a3 a4 a5 b1 b2 b3 : positive * positive)
    : gmap string DataFrame :=
  <["A.csv" := nasdaq_file [(1, price a1); (2, price a2); (3, price a3);
                            (4, price a4); (5, price a5)]]>
    (<["B.csv" := nasdaq_file [(1, price b1); (2, price b2); (3, price b3)]]> ∅).

(** The handler built for the universe [A; B] over such files. *)
Definition scenario_handler (a1 a2 a3 a4 a5 b1 b2 b3 : positive * positive) : Handler :=
  snd (HistoricCSVDataHandler.__init__ []
         (scenario_dir a1 a2 a3 a4 a5 b1 b2 b3) ["A"; "B"] NASDAQ).

(** A closes at 10, 11, 12, 13, 14 and B at 20, 21, 22. *)
Definition dir_AB : gmap string DataFrame :=
  scenario_dir (10, 1)%positive (11, 1)%positive (12, 1)%positive (13, 1)%positive
    (14, 1)%positive (20, 1)%positive (21, 1)%positive (22, 1)%positive.

(** The handler built for the universe [symbols] over these files. *)
Definition handler_AB (symbols : list string) : Handler :=
  snd (HistoricCSVDataHandler.__init__ [] dir_AB symbols NASDAQ).

Lemma handler_AB_built :
  built (csv_native dir_AB NASDAQ) (handler_AB ["A"; "B"]).
Proof. apply (built_csv [] dir_AB ["A"; "B"] NASDAQ). by vm_compute. Defined.

Lemma handler_AB_reachable n : reachable (ticks n (handler_AB ["A"; "B"])).
Proof.
  exists (csv_native dir_AB NASDAQ), (handler_AB ["A"; "B"]), (replicate n Update).
  split; [apply handler_AB_built|].
  generalize (handler_AB ["A"; "B"]) as h.
  induction n as [|n IH]; intros h; simpl; [done | apply IH].
Defined.

(** * The claims *)

(** C2. Once a symbol's cursor raises exhaustion in its turn of an advance,
    [continue_backtest] is false after the advance, and stays false through
    every later call on the handler. *)
Theorem exhaustion_clears_running_for_good h before symbol after h1 :
  symbol_list h = before ++ symbol :: after ->
  for_each before update_symbol h = (Ok tt, h1) ->
  fst (_get_new_data symbol h1) = Raise StopIteration ->
  continue_backtest (snd (update_latest_data h)) = false /\
  forall later, continue_backtest (run later (snd (update_latest_data h))) = false.
Proof.
  intros Hlist Hbefore Hstop.
  assert (continue_backtest (snd (update_latest_data h)) = false) as Hflag.
  { destruct (update_latest_data_fields h) as (_ & _ & _ & ->).
    rewrite Hlist, for_each_app, Hbefore, for_each_cons_snd.
    apply _get_new_data_StopIteration in Hstop.
    rewrite update_symbol_eq, Hstop.
    by apply for_each_update_flag. }
  split; [done|]. intros later. by apply run_flag.
Qed.

(** After five ticks of the worked universe A's cursor is exhausted. *)
Lemma exhaustion_clears_running_for_good_witness :
  let h := ticks 5 (handler_AB ["A"; "B"]) in
  continue_backtest (snd (update_latest_data h)) = false /\
  continue_backtest
    (run [Update; GetLatest "A" 2; Baseline; Update] (snd (update_latest_data h))) = false.
Proof.
  destruct (exhaustion_clears_running_for_good
              (ticks 5 (handler_AB ["A"; "B"])) [] "A" ["B"]
              (ticks 5 (handler_AB ["A"; "B"]))) as [Hnow Hlater].
  - by vm_compute.
  - reflexivity.
  - by vm_compute.
  - split; [exact Hnow | apply Hlater].
Defined.

(** C4. For a handler in use and a symbol of its universe, one call of
    [update_latest_data] leaves the symbol's buffer as it was or appends one
    bar to it: the bars buffered before are still there, in order. *)
Theorem update_appends_at_most_one_bar h symbol :
  reachable h ->
  symbol ∈ symbol_list h ->
  exists buffer suffix,
    latest_symbol_data h !! symbol = Some buffer /\
    latest_symbol_data (snd (update_latest_data h)) !! symbol = Some (buffer ++ suffix) /\
    (length suffix = 0 \/ length suffix = 1)%nat.
Proof.
  intros Hreach Hin.
  destruct (reachable_universe_ok h Hreach) as [Hnodup Hbuffers].
  destruct (proj1 (Hbuffers symbol) Hin) as [buffer Hbuffer].
  destruct (for_each_update_buffer (symbol_list h) h symbol buffer Hnodup Hbuffer)
    as (suffix & Hlen & Hafter).
  exists buffer, suffix.
  destruct (update_latest_data_fields h) as (_ & -> & _ & _).
  split_and!; [done | done | lia].
Qed.

(** B in the worked universe, after two ticks. *)
Lemma update_appends_at_most_one_bar_witness :
  let h := ticks 2 (handler_AB ["A"; "B"]) in
  exists buffer suffix,
    latest_symbol_data h !! "B" = Some buffer /\
    latest_symbol_data (snd (update_latest_data h)) !! "B" = Some (buffer ++ suffix) /\
    (length suffix = 0 \/ length suffix = 1)%nat.
Proof.
  apply (update_appends_at_most_one_bar (ticks 2 (handler_AB ["A"; "B"])) "B").
  - apply handler_AB_reachable.
  - vm_compute. apply list_elem_of_In. simpl. auto.
Defined.


Lemma slice_from_nil {A} start : slice_from start (@nil A) = [].
Proof. unfold slice_from. by rewrite drop_nil. Qed.

(** For [N >= 1], [buffer[-N:]] is the last [min N (len buffer)] bars. *)
Lemma slice_from_last {A} (N : Z) (buffer : list A) :
  1 <= N ->
  slice_from (- N) buffer = drop (length buffer - Z.to_nat N) buffer.
Proof.
  intros HN. unfold slice_from.
  destruct (- N <? 0) eqn:Hneg; [|apply Z.ltb_ge in Hneg; lia].
  f_equal. lia.
Qed.

(** The window read by [get_latest_data] for a count of at least one: the
    last [min N (len buffer)] bars, oldest first, the handler untouched. *)
Lemma get_latest_data_last h symbol buffer N :
  latest_symbol_data h !! symbol = Some buffer ->
  1 <= N ->
  exists older window,
    get_latest_data symbol N h = (Ok window, h) /\
    buffer = older ++ window /\
    length window = Nat.min (Z.to_nat N) (length buffer).
Proof.
  intros Hbuffer HN.
  exists (take (length buffer - Z.to_nat N) buffer),
         (drop (length buffer - Z.to_nat N) buffer).
  rewrite get_latest_data_eq, Hbuffer, slice_from_last by done.
  split_and!; [done | by rewrite take_drop | rewrite length_drop; lia].
Qed.

(** C9. On a handler in use, [get_latest_data] for a symbol outside the
    universe raises: the [KeyError] handler prints, and [.format] on the
    [None] that [print] returned is an [AttributeError].  For a symbol whose
    buffer is still empty it returns the empty list: the two outcomes differ. *)
Theorem unknown_symbol_raises h symbol N :
  reachable h ->
  symbol ∉ symbol_list h ->
  fst (get_latest_data symbol N h) = Raise AttributeError /\
  forall s N',
    latest_symbol_data h !! s = Some [] ->
    fst (get_latest_data s N' h) = Ok [] /\
    fst (get_latest_data symbol N h) <> fst (get_latest_data s N' h).
Proof.
  intros Hreach Hnotin.
  destruct (reachable_universe_ok h Hreach) as [_ Hbuffers].
  assert (latest_symbol_data h !! symbol = None) as Hnone.
  { apply eq_None_not_Some. by rewrite <- Hbuffers. }
  rewrite !get_latest_data_eq, Hnone. split; [done|].
  intros s N' Hs. rewrite get_latest_data_eq, Hs, slice_from_nil. done.
Qed.

(** ZZZ is not in the worked universe, whose buffers start empty. *)
Lemma unknown_symbol_raises_witness :
  let h := handler_AB ["A"; "B"] in
  fst (get_latest_data "ZZZ" 1 h) = Raise AttributeError /\
  fst (get_latest_data "A" 1 h) = Ok [] /\
  fst (get_latest_data "ZZZ" 1 h) <> fst (get_latest_data "A" 1 h).
Proof.
  destruct (unknown_symbol_raises (handler_AB ["A"; "B"]) "ZZZ" 1) as [Hraise Hempty].
  - apply (handler_AB_reachable 0).
  - vm_compute. intros Hin. apply list_elem_of_In in Hin. simpl in Hin.
    destruct Hin as [?|[?|[]]]; discriminate.
  - split; [exact Hraise | apply Hempty; by vm_compute].
Defined.

(** C8, at the count 0.  After four ticks A's buffer holds four bars;
    [get_latest_data("A", 0)] evaluates [buffer[-0:]], the whole buffer, and
    returns all four of them where the last 0 bars are none. *)
Theorem get_latest_data_zero_returns_whole_buffer :
  let h := ticks 4 (handler_AB ["A"; "B"]) in
  latest_symbol_data h !! "A" =
    Some [("A", 1, Some 10%Q); ("A", 2, Some 11%Q);
          ("A", 3, Some 12%Q); ("A", 4, Some 13%Q)] /\
  fst (get_latest_data "A" 0 h) =
    Ok [("A", 1, Some 10%Q); ("A", 2, Some 11%Q);
        ("A", 3, Some 12%Q); ("A", 4, Some 13%Q)] /\
  fst (get_latest_data "A" 2 h) = Ok [("A", 3, Some 12%Q); ("A", 4, Some 13%Q)].
Proof. by vm_compute. Qed.


(** * Alignment *)

(** A frame whose index is strictly increasing, as [reindex(method='pad')]
    wants it. *)
Definition chronological (df : DataFrame) : Prop :=
  StronglySorted Z.lt (index df).

(** [r] is the latest of the rows [rs] at or before [T]. *)
Definition latest_at_or_before (T : Z) (rs : list Row) (r : Row) : Prop :=
  r ∈ rs /\ fst r <= T /\ forall r', r' ∈ rs -> fst r' <= T -> fst r' <= fst r.

Lemma pad_locate_in T rs : forall cur,
  match pad_locate T rs cur with
  | Some r => cur = Some r \/ r ∈ rs
  | None => True
  end.
Proof.
  induction rs as [|r0 rs IH]; intros cur; simpl.
  - destruct cur; [by left | done].
  - destruct (fst r0 <=? T).
    + specialize (IH (Some r0)).
      destruct (pad_locate T rs (Some r0)) as [r|]; [|done].
      right. destruct IH as [[= ->]|?]; [by left | by right].
    + destruct cur; [by left | done].
Qed.

Lemma pad_locate_acc T rs : forall cur,
  StronglySorted Z.lt (map fst rs) ->
  match pad_locate T rs cur with
  | Some r =>
      (cur = Some r /\ forall r', r' ∈ rs -> T < fst r') \/
      latest_at_or_before T rs r
  | None => cur = None /\ forall r', r' ∈ rs -> T < fst r'
  end.
Proof.
  induction rs as [|r0 rs IH]; intros cur Hsorted; simpl.
  - destruct cur as [c|].
    + left. split; [done|]. intros r' Hr'. by apply elem_of_nil in Hr'.
    + split; [done|]. intros r' Hr'. by apply elem_of_nil in Hr'.
  - simpl in Hsorted. apply StronglySorted_cons in Hsorted as [Hlt Hsorted].
    assert (forall r', r' ∈ rs -> fst r0 < fst r') as Hafter.
    { intros r' Hr'. rewrite Forall_forall in Hlt. apply Hlt.
      apply list_elem_of_fmap. by exists r'. }
    destruct (fst r0 <=? T) eqn:Hle.
    + apply Z.leb_le in Hle. specialize (IH (Some r0) Hsorted).
      destruct (pad_locate T rs (Some r0)) as [r|]; [|by destruct IH].
      right. destruct IH as [[Heq Hall]|(Hin & HrT & Hmax)].
      * injection Heq as <-. split_and!; [by left | done |].
        intros r' Hr' Hr'T. apply elem_of_cons in Hr' as [->|Hr']; [lia|].
        specialize (Hall r' Hr'). lia.
      * split_and!; [by right | done |].
        intros r' Hr' Hr'T. apply elem_of_cons in Hr' as [->|Hr']; [|by apply Hmax].
        specialize (Hafter r Hin). lia.
    + apply Z.leb_gt in Hle.
      assert (forall r', r' ∈ r0 :: rs -> T < fst r') as Hall.
      { intros r' Hr'. apply elem_of_cons in Hr' as [->|Hr']; [done|].
        specialize (Hafter r' Hr'). lia. }
      destruct cur as [c|]; [by left | done].
Qed.

(** The forward-fill search finds the latest row at or before [T], and
    nothing exactly when every row is later than [T]. *)
Lemma pad_locate_spec T rs :
  StronglySorted Z.lt (map fst rs) ->
  match pad_locate T rs None with
  | Some r => latest_at_or_before T rs r
  | None => forall r', r' ∈ rs -> T < fst r'
  end.
Proof.
  intros Hsorted. pose proof (pad_locate_acc T rs None Hsorted) as H.
  destruct (pad_locate T rs None) as [r|].
  - by destruct H as [[? _]|?].
  - by destruct H.
Qed.

Lemma index_take_located locate df ci : index (take_located locate df ci) = ci.
Proof.
  unfold index. simpl. rewrite map_map. simpl. apply map_id.
Qed.

(** What [reindex] returns when it returns: the frame itself on its own
    index, or the rows found by one of the two searches. *)
Lemma reindex_pad_cases df ci aligned :
  reindex_pad df (Some ci) = Ok aligned ->
  (index df = ci /\ aligned = df) \/
  aligned = take_located pad_locate df ci \/
  aligned = take_located pad_locate_decreasing df ci.
Proof.
  unfold reindex_pad.
  destruct (bool_decide (index df = ci)) eqn:Heq.
  - apply bool_decide_eq_true in Heq. intros [= <-]. by left.
  - destruct (is_unique (index df)); simpl; [|done].
    destruct (is_monotonic_increasing (index df)); [intros [= <-]; auto|].
    destruct (is_monotonic_decreasing (index df)); [intros [= <-]; auto | done].
Qed.

Lemma index_reindex_pad df ci aligned :
  reindex_pad df (Some ci) = Ok aligned -> index aligned = ci.
Proof.
  intros Hpad.
  destruct (reindex_pad_cases _ _ _ Hpad) as [[? ->]|[->| ->]];
    [done | apply index_take_located..].
Qed.

Lemma columns_reindex_pad df target aligned :
  reindex_pad df target = Ok aligned -> columns aligned = columns df.
Proof.
  destruct target as [ci|]; [|by intros [= <-]].
  intros Hpad.
  by destruct (reindex_pad_cases _ _ _ Hpad) as [[? ->]|[->| ->]].
Qed.

Lemma pad_locate_decreasing_in T rs : forall cur,
  match pad_locate_decreasing T rs cur with
  | Some r => cur = Some r \/ r ∈ rs
  | None => True
  end.
Proof.
  induction rs as [|r0 rs IH]; intros cur; simpl.
  - destruct cur; [by left | done].
  - destruct (T <=? fst r0).
    + specialize (IH (Some r0)).
      destruct (pad_locate_decreasing T rs (Some r0)) as [r|]; [|done].
      right. destruct IH as [[= ->]|?]; [by left | by right].
    + destruct cur; [by left | done].
Qed.

(** Every row of an aligned table holds the cells of a row of the native
    frame, or NaN in every column. *)
Lemma reindex_pad_rows df target aligned :
  reindex_pad df target = Ok aligned ->
  forall r, r ∈ rows aligned ->
    snd r = nan_row df \/ exists r', r' ∈ rows df /\ snd r = snd r'.
Proof.
  intros Hpad r Hr.
  assert (forall locate : Timestamp -> list Row -> option Row -> option Row,
            (forall T, match locate T (rows df) None with
                       | Some r' => r' ∈ rows df
                       | None => True
                       end) ->
            r ∈ rows (take_located locate df (default [] target)) ->
            snd r = nan_row df \/ exists r', r' ∈ rows df /\ snd r = snd r') as Hlocated.
  { intros locate Hlocate Hin. simpl in Hin.
    apply list_elem_of_fmap in Hin as (T & -> & _). simpl.
    specialize (Hlocate T). destruct (locate T (rows df) None) as [r'|].
    - right. by exists r'.
    - by left. }
  destruct target as [ci|]; [|injection Hpad as <-; right; by exists r].
  destruct (reindex_pad_cases _ _ _ Hpad) as [[? ->]|[->| ->]].
  - right. by exists r.
  - apply (Hlocated pad_locate); [|done]. intros T.
    pose proof (pad_locate_in T (rows df) None) as Hin.
    destruct (pad_locate T (rows df) None); [by destruct Hin | done].
  - apply (Hlocated pad_locate_decreasing); [|done]. intros T.
    pose proof (pad_locate_decreasing_in T (rows df) None) as Hin.
    destruct (pad_locate_decreasing T (rows df) None); [by destruct Hin | done].
Qed.

Lemma chronological_is_unique (idx : list Z) :
  StronglySorted Z.lt idx -> is_unique idx = true.
Proof.
  induction idx as [|T idx IH]; intros Hsorted; simpl; [done|].
  apply StronglySorted_cons in Hsorted as [Hlt Hsorted].
  rewrite IH, andb_true_r by done.
  apply forallb_forall. intros T' HT'. rewrite Forall_forall in Hlt.
  apply list_elem_of_In in HT'. specialize (Hlt T' HT').
  apply negb_true_iff, Z.eqb_neq. lia.
Qed.

Lemma chronological_is_monotonic_increasing (idx : list Z) :
  StronglySorted Z.lt idx -> is_monotonic_increasing idx = true.
Proof.
  induction idx as [|T idx IH]; intros Hsorted; [done|].
  apply StronglySorted_cons in Hsorted as [Hlt Hsorted].
  destruct idx as [|T' idx]; [done|].
  change (is_monotonic_increasing (T :: T' :: idx))
    with ((T <=? T') && is_monotonic_increasing (T' :: idx)).
  rewrite (IH Hsorted), andb_true_r.
  apply Forall_cons in Hlt as [Hlt _]. apply Z.leb_le. lia.
Qed.

Lemma chronological_unique (rs : list Row) r r' :
  StronglySorted Z.lt (map fst rs) ->
  r ∈ rs -> r' ∈ rs -> fst r = fst r' -> r = r'.
Proof.
  induction rs as [|r0 rs IH]; intros Hsorted Hr Hr' Heq.
  - by apply elem_of_nil in Hr.
  - simpl in Hsorted. apply StronglySorted_cons in Hsorted as [Hlt Hsorted].
    rewrite Forall_forall in Hlt.
    assert (forall x, x ∈ rs -> fst r0 < fst x) as Hafter.
    { intros x Hx. apply Hlt. apply list_elem_of_fmap. by exists x. }
    apply elem_of_cons in Hr as [->|Hr]; apply elem_of_cons in Hr' as [->|Hr'].
    + done.
    + specialize (Hafter r' Hr'). lia.
    + specialize (Hafter r Hr). lia.
    + by apply IH.
Qed.

(** At the label of one of its rows, the forward-fill search of a
    chronological frame finds that row. *)
Lemma pad_locate_exact (rs : list Row) r :
  StronglySorted Z.lt (map fst rs) ->
  r ∈ rs ->
  pad_locate (fst r) rs None = Some r.
Proof.
  intros Hsorted Hr.
  pose proof (pad_locate_spec (fst r) rs Hsorted) as Hspec.
  destruct (pad_locate (fst r) rs None) as [r'|].
  - destruct Hspec as (Hr' & Hle & Hmax). f_equal.
    apply (chronological_unique rs); try done.
    specialize (Hmax r Hr). lia.
  - specialize (Hspec r Hr). lia.
Qed.

(** On its own index a chronological frame is forward-filled to itself. *)
Lemma take_located_own_index df :
  chronological df -> take_located pad_locate df (index df) = df.
Proof.
  intros Hchrono. destruct df as [cols rs]. unfold take_located, index. simpl.
  f_equal. rewrite map_map.
  transitivity (map id rs); [|apply map_id].
  apply map_ext_in. intros r Hr. simpl.
  rewrite (pad_locate_exact rs r Hchrono); [by destruct r|].
  by apply list_elem_of_In.
Qed.

(** A chronological frame is reindexed on any index, by the forward-fill
    search. *)
Lemma reindex_pad_chronological df ci :
  chronological df ->
  reindex_pad df (Some ci) = Ok (take_located pad_locate df ci).
Proof.
  intros Hchrono. unfold reindex_pad.
  destruct (bool_decide (index df = ci)) eqn:Heq.
  - apply bool_decide_eq_true in Heq. subst ci.
    by rewrite take_located_own_index.
  - by rewrite (chronological_is_unique _ Hchrono),
      (chronological_is_monotonic_increasing _ Hchrono).
Qed.

Lemma loaded_calendar load queue h s :
  loaded load queue (symbol_list h) h ->
  s ∈ symbol_list h ->
  exists ci, calendar load (symbol_list h) = Some ci.
Proof.
  intros Hloaded Hs. unfold calendar.
  destruct (symbol_list h) as [|first rest] eqn:Hlist.
  - by apply elem_of_nil in Hs.
  - destruct (loaded_in _ _ _ _ Hloaded first) as (df & aligned & -> & _); [by left|].
    by eexists.
Qed.

(** After construction every symbol's table has the same index, the calendar:
    the native index of the first symbol. *)
Lemma aligned_tables_share_calendar load h :
  built load h ->
  forall s, s ∈ symbol_list h ->
    exists ci native aligned,
      calendar load (symbol_list h) = Some ci /\ load s = Ok native /\
      reindex_pad native (Some ci) = Ok aligned /\
      symbol_dataframe h !! s = Some aligned /\
      index aligned = ci.
Proof.
  intros Hbuilt s Hs.
  destruct (built_loaded _ _ Hbuilt) as [queue Hloaded].
  destruct (loaded_calendar _ _ _ s Hloaded Hs) as [ci Hci].
  destruct (loaded_in _ _ _ _ Hloaded s Hs)
    as (native & aligned & Hload & Hpad & Haligned & _).
  exists ci, native, aligned. rewrite Hci in Hpad.
  split_and!; try done. by apply (index_reindex_pad native).
Qed.

(** C1, on the universe [B; A] of the worked files.  The union of the native
    timestamps is days 1 to 5; [combined_index.union(...)] computes it, but
    its value is dropped, and both tables are aligned on B's own index, days
    1 to 3: A's bars of days 4 and 5 are in no table. *)
Theorem calendar_misses_later_symbols_timestamps :
  let h := handler_AB ["B"; "A"] in
  index <$> symbol_dataframe h !! "A" = Some [1; 2; 3] /\
  index <$> symbol_dataframe h !! "B" = Some [1; 2; 3] /\
  csv_native dir_AB NASDAQ "A" =
    Ok {| columns := ["Close"];
          rows := [(1, [Some 10%Q]); (2, [Some 11%Q]); (3, [Some 12%Q]);
                   (4, [Some 13%Q]); (5, [Some 14%Q])] |} /\
  csv_native dir_AB NASDAQ "B" =
    Ok {| columns := ["Close"];
          rows := [(1, [Some 20%Q]); (2, [Some 21%Q]); (3, [Some 22%Q])] |} /\
  Index_union [1; 2; 3] [1; 2; 3; 4; 5] = [1; 2; 3; 4; 5].
Proof. by vm_compute. Qed.


(** A universe whose second symbol starts a day after the first. *)
Definition dir_late : gmap string DataFrame :=
  <["EARLY.csv" := nasdaq_file [(1, 10%Q); (2, 11%Q)]]>
    (<["LATE.csv" := nasdaq_file [(2, 5%Q)]]> ∅).

Definition handler_late : Handler :=
  snd (HistoricCSVDataHandler.__init__ [] dir_late ["EARLY"; "LATE"] NASDAQ).

Lemma handler_late_built : built (csv_native dir_late NASDAQ) handler_late.
Proof. apply (built_csv [] dir_late ["EARLY"; "LATE"] NASDAQ). by vm_compute. Defined.

(** C6 as the specification words it: at every timestamp [T] of the union of
    the native indexes, the table of [S] holds the latest native row of [S]
    at or before [T], and has no row at [T] when [S] has none. *)
Definition forward_fill_drops_undefined (load : string -> result DataFrame)
    (h : Handler) : Prop :=
  forall S T native aligned,
    S ∈ symbol_list h ->
    load S = Ok native ->
    symbol_dataframe h !! S = Some aligned ->
    (exists S' native', S' ∈ symbol_list h /\ load S' = Ok native' /\ T ∈ index native') ->
    (forall r, latest_at_or_before T (rows native) r -> (T, snd r) ∈ rows aligned) /\
    ((forall r, r ∈ rows native -> T < fst r) -> T ∉ index aligned).

(** C6 fails as worded: LATE has no observation at or before day 1, and its
    table has a row at day 1 all the same, holding NaN. *)
Lemma forward_fill_keeps_undefined_rows :
  symbol_dataframe handler_late !! "LATE" =
    Some {| columns := ["Close"]; rows := [(1, [NaN]); (2, [Some 5%Q])] |} /\
  ~ forward_fill_drops_undefined (csv_native dir_late NASDAQ) handler_late.
Proof.
  split; [by vm_compute|].
  intros Hclaim.
  destruct (Hclaim "LATE" 1
              {| columns := ["Close"]; rows := [(2, [Some 5%Q])] |}
              {| columns := ["Close"]; rows := [(1, [NaN]); (2, [Some 5%Q])] |})
    as [_ Hdropped].
  - vm_compute. apply list_elem_of_In. simpl. auto.
  - by vm_compute.
  - by vm_compute.
  - exists "EARLY",
      {| columns := ["Close"]; rows := [(1, [Some 10%Q]); (2, [Some 11%Q])] |}.
    split_and!.
    + vm_compute. apply list_elem_of_In. simpl. auto.
    + by vm_compute.
    + vm_compute. apply list_elem_of_In. simpl. auto.
  - apply Hdropped.
    + intros r Hr. apply list_elem_of_In in Hr. simpl in Hr.
      destruct Hr as [<-|[]]. simpl. lia.
    + vm_compute. apply list_elem_of_In. simpl. auto.
Qed.

(** C6, amended.  In the table of a symbol whose native frame is
    chronological, the row at [T] holds the symbol's latest native row at or
    before [T]; when there is none the row is there all the same and holds
    NaN in every column.  Every symbol's table has the same index, so no
    table lacks a row that another has. *)
Theorem aligned_row_is_latest_native_or_NaN load h symbol native aligned :
  built load h ->
  symbol ∈ symbol_list h ->
  load symbol = Ok native ->
  chronological native ->
  symbol_dataframe h !! symbol = Some aligned ->
  (forall T cells, (T, cells) ∈ rows aligned ->
     (exists r, latest_at_or_before T (rows native) r /\ cells = snd r) \/
     ((forall r, r ∈ rows native -> T < fst r) /\ cells = nan_row native)) /\
  (forall s aligned', s ∈ symbol_list h ->
     symbol_dataframe h !! s = Some aligned' -> index aligned' = index aligned).
Proof.
  intros Hbuilt Hin Hload Hchrono Haligned.
  destruct (aligned_tables_share_calendar _ _ Hbuilt symbol Hin)
    as (ci & native' & aligned0 & Hci & Hload' & Hpad & Haligned' & Hindex).
  assert (native' = native) as -> by congruence.
  assert (aligned0 = aligned) as -> by congruence.
  rewrite (reindex_pad_chronological _ _ Hchrono) in Hpad. injection Hpad as <-.
  split.
  - intros T cells Hrow. simpl in Hrow.
    apply list_elem_of_fmap in Hrow as (T' & Heq & _).
    injection Heq as <- ->.
    pose proof (pad_locate_spec T (rows native) Hchrono) as Hspec.
    destruct (pad_locate T (rows native) None) as [r|].
    + left. by exists r.
    + by right.
  - intros s aligned' Hs Hs'.
    destruct (aligned_tables_share_calendar _ _ Hbuilt s Hs)
      as (ci' & native' & aligned'' & Hci' & _ & _ & Haligned'' & Hindex').
    assert (ci' = ci) as -> by congruence.
    assert (aligned'' = aligned') as -> by congruence.
    by rewrite Hindex, Hindex'.
Qed.

(** The late symbol: NaN at day 1, its own price at day 2. *)
Lemma aligned_row_is_latest_native_or_NaN_witness :
  let native := {| columns := ["Close"]; rows := [(2, [Some 5%Q])] |} in
  let aligned := {| columns := ["Close"]; rows := [(1, [NaN]); (2, [Some 5%Q])] |} in
  (forall T cells, (T, cells) ∈ rows aligned ->
     (exists r, latest_at_or_before T (rows native) r /\ cells = snd r) \/
     ((forall r, r ∈ rows native -> T < fst r) /\ cells = nan_row native)) /\
  (forall s aligned', s ∈ symbol_list handler_late ->
     symbol_dataframe handler_late !! s = Some aligned' -> index aligned' = index aligned).
Proof.
  apply (aligned_row_is_latest_native_or_NaN
           (csv_native dir_late NASDAQ) handler_late "LATE").
  - apply handler_late_built.
  - vm_compute. apply list_elem_of_In. simpl. auto.
  - by vm_compute.
  - unfold chronological. simpl. repeat constructor.
  - by vm_compute.
Defined.


(** * Lockstep replay *)

(** Every row still to be replayed has a first cell, the price that
    [row[1][0]] reads. *)
Definition priced (h : Handler) : bool :=
  forallb
    (fun s =>
       match symbol_data h !! s with
       | Some (RowIter remaining) =>
           forallb (fun r : Row => match snd r with [] => false | _ :: _ => true end)
                   remaining
       | _ => false
       end)
    (symbol_list h).

(** Every symbol's cursor has [n] rows left, each with a price, and the
    running flag is down only when none is left. *)
Record lockstep (n : nat) (h : Handler) : Prop := {
  lockstep_cursors : forall s, s ∈ symbol_list h ->
    exists remaining,
      symbol_data h !! s = Some (RowIter remaining) /\
      length remaining = n /\
      Forall (fun r : Row => snd r <> []) remaining;
  lockstep_flag : continue_backtest h = false -> n = 0%nat
}.

Lemma set_continue_backtest_twice b h :
  set_continue_backtest b (set_continue_backtest b h) = set_continue_backtest b h.
Proof. done. Qed.

(** With every cursor exhausted the loop only clears the flag. *)
Lemma loop_exhausted l : forall h,
  (forall s, s ∈ l -> symbol_data h !! s = Some (RowIter [])) ->
  for_each l update_symbol h =
  (Ok tt, if decide (l = []) then h else set_continue_backtest false h).
Proof.
  induction l as [|x l IH]; intros h Hall; [done|].
  simpl. unfold bind. rewrite update_symbol_eq, (Hall x) by (by left).
  rewrite IH.
  - destruct (decide (l = [])); by rewrite ?set_continue_backtest_twice.
  - intros s Hs. simpl. apply Hall. by right.
Qed.

(** With a priced row left on every cursor, the loop takes one row off each
    and raises nothing. *)
Lemma loop_running l : forall h,
  NoDup l ->
  (forall s, s ∈ l ->
     exists row remaining buffer,
       symbol_data h !! s = Some (RowIter (row :: remaining)) /\
       snd row <> [] /\ latest_symbol_data h !! s = Some buffer) ->
  exists h',
    for_each l update_symbol h = (Ok tt, h') /\
    continue_backtest h' = continue_backtest h /\
    (forall s row remaining, s ∈ l ->
       symbol_data h !! s = Some (RowIter (row :: remaining)) ->
       symbol_data h' !! s = Some (RowIter remaining)) /\
    (forall s, s ∉ l -> symbol_data h' !! s = symbol_data h !! s).
Proof.
  induction l as [|x l IH]; intros h Hnodup Hall.
  - exists h. split_and!; try done. intros s row remaining Hs. by apply elem_of_nil in Hs.
  - apply NoDup_cons in Hnodup as [Hxl Hnodup].
    destruct (Hall x) as ([T cells] & remaining & buffer & Hcursor & Hprice & Hbuffer);
      [by left|].
    destruct cells as [|price cells]; [done|].
    set (h1 := set_latest_symbol_data <[x := buffer ++ [(x, T, price)]]>
                 (set_symbol_data <[x := RowIter remaining]> h)).
    assert (update_symbol x h = (Ok tt, h1)) as Hstep.
    { by rewrite update_symbol_eq, Hcursor, Hbuffer. }
    destruct (IH h1 Hnodup) as (h' & Hrun & Hflag & Hin & Hout).
    { intros s Hs. destruct (Hall s) as (row & rem & buf & ? & ? & ?); [by right|].
      exists row, rem, buf. assert (x <> s) by (intros ->; done).
      subst h1. simpl. by rewrite !lookup_insert_ne. }
    exists h'. split_and!.
    + simpl. unfold bind. by rewrite Hstep.
    + by rewrite Hflag.
    + intros s row rem Hs Hrow. apply elem_of_cons in Hs as [->|Hs].
      * rewrite (Hout x Hxl). subst h1. simpl. rewrite lookup_insert_eq.
        congruence.
      * apply (Hin s row rem Hs). assert (x <> s) by (intros ->; done).
        subst h1. simpl. by rewrite lookup_insert_ne.
    + intros s Hs. apply not_elem_of_cons in Hs as [Hne Hs].
      rewrite (Hout s Hs). subst h1. simpl. by rewrite lookup_insert_ne.
Qed.

(** One advance of a handler in lockstep: with rows left it takes one off
    every cursor; with none left it changes nothing but the queue (and lowers
    the flag, if it was still up). *)
Lemma update_lockstep n h :
  universe_ok h ->
  lockstep n h ->
  lockstep (pred n) (snd (update_latest_data h)) /\
  (n = 0%nat ->
   update_latest_data h =
   (Ok tt,
    set_events (fun queue => queue ++ [MarketEvent])
      (if decide (symbol_list h = []) then h else set_continue_backtest false h))).
Proof.
  intros [Hnodup Hbuffers] [Hcursors Hflag].
  destruct n as [|n].
  - assert (forall s, s ∈ symbol_list h -> symbol_data h !! s = Some (RowIter []))
      as Hempty.
    { intros s Hs. destruct (Hcursors s Hs) as (remaining & -> & Hlen & _).
      by destruct remaining. }
    assert (update_latest_data h =
            (Ok tt,
             set_events (fun queue => queue ++ [MarketEvent])
               (if decide (symbol_list h = []) then h
                else set_continue_backtest false h))) as Hupdate.
    { by rewrite update_latest_data_eq, (loop_exhausted _ _ Hempty). }
    split; [|done]. rewrite Hupdate. simpl.
    destruct (decide (symbol_list h = [])); split; simpl; try done.
  - split; [|done].
    destruct (loop_running (symbol_list h) h Hnodup) as (h' & Hrun & Hflag' & Hin & Hout).
    { intros s Hs. destruct (Hcursors s Hs) as (remaining & Hcursor & Hlen & Hpriced).
      destruct remaining as [|row remaining]; [done|].
      destruct (proj1 (Hbuffers s) Hs) as [buffer Hbuffer].
      exists row, remaining, buffer. split_and!; try done.
      by apply Forall_cons in Hpriced as [? _]. }
    pose proof (for_each_update_frame (symbol_list h) h) as (Hsl & _).
    rewrite update_latest_data_eq, Hrun. rewrite Hrun in Hsl. simpl in *.
    split; simpl.
    + rewrite Hsl. intros s Hs.
      destruct (Hcursors s Hs) as (remaining & Hcursor & Hlen & Hpriced).
      destruct remaining as [|row remaining]; [done|].
      exists remaining. rewrite (Hin s row remaining Hs Hcursor).
      apply Forall_cons in Hpriced as [_ ?]. simpl in Hlen.
      split_and!; [done | lia | done].
    + rewrite Hflag'. intros Hfalse. by specialize (Hflag Hfalse).
Qed.

Lemma exec_lockstep c n h :
  universe_ok h -> lockstep n h -> exists n', lockstep n' (exec c h).
Proof.
  intros Hok Hstep. destruct c as [|symbol N|]; simpl.
  - exists (pred n). by apply update_lockstep.
  - exists n. rewrite get_latest_data_eq.
    destruct (latest_symbol_data h !! symbol); [done|].
    by destruct Hstep.
  - exists n. by rewrite create_baseline_dataframe_state.
Qed.

Lemma run_lockstep cs : forall n h,
  universe_ok h -> lockstep n h ->
  universe_ok (run cs h) /\ exists n', lockstep n' (run cs h).
Proof.
  induction cs as [|c cs IH]; intros n h Hok Hstep; simpl.
  - split; [done | by exists n].
  - destruct (exec_lockstep c n h Hok Hstep) as [n' Hstep'].
    apply (IH n'); [by apply exec_universe_ok | done].
Qed.

Lemma built_lockstep load h :
  built load h -> priced h = true -> exists n, lockstep n h.
Proof.
  intros Hbuilt Hpriced.
  destruct (built_loaded _ _ Hbuilt) as [queue Hloaded].
  exists (match calendar load (symbol_list h) with
          | Some ci => length ci
          | None => 0%nat
          end).
  split.
  - intros s Hs.
    destruct (loaded_calendar _ _ _ s Hloaded Hs) as [ci Hci].
    destruct (loaded_in _ _ _ _ Hloaded s Hs)
      as (native & aligned & _ & Hpad & _ & Hcursor & _).
    rewrite Hci in *. apply index_reindex_pad in Hpad as Hindex.
    eexists. split_and!;
      [done | rewrite <- Hindex; unfold index; by rewrite length_map |].
    unfold priced in Hpriced. rewrite forallb_forall in Hpriced.
    specialize (Hpriced s). rewrite Hcursor in Hpriced.
    apply Forall_forall. intros r Hr.
    assert (forallb (fun r : Row => match snd r with [] => false | _ :: _ => true end)
              (rows aligned) = true) as Hrows.
    { apply Hpriced. by apply list_elem_of_In. }
    rewrite forallb_forall in Hrows. apply list_elem_of_In in Hr.
    specialize (Hrows r Hr). by destruct (snd r).
  - rewrite (loaded_running _ _ _ _ Hloaded). done.
Qed.


(** C3 as the specification words it: with the running flag down, an advance
    changes no buffer and posts nothing. *)
Definition update_is_noop_when_halted (h : Handler) : Prop :=
  continue_backtest h = false ->
  latest_symbol_data (snd (update_latest_data h)) = latest_symbol_data h /\
  events (snd (update_latest_data h)) = events h.

(** C3 fails as worded: six ticks exhaust the worked universe, and a seventh
    advance still puts a [MarketEvent] on the queue. *)
Lemma halted_update_still_posts :
  let h := ticks 6 (handler_AB ["A"; "B"]) in
  reachable h /\ continue_backtest h = false /\
  length (events h) = 6%nat /\
  length (events (snd (update_latest_data h))) = 7%nat /\
  ~ update_is_noop_when_halted h.
Proof.
  split_and!; [apply handler_AB_reachable | by vm_compute..|].
  intros Hnoop. destruct Hnoop as [_ Hevents]; [by vm_compute|].
  apply (f_equal length) in Hevents. vm_compute in Hevents. discriminate.
Qed.

(** C3, amended.  On a handler in use whose tables have a price column, once
    the running flag is down an advance returns normally, leaves every buffer
    and every cursor as they were and the flag down, and posts one
    [MarketEvent]. *)
Theorem halted_update_only_posts load h0 cs :
  built load h0 ->
  priced h0 = true ->
  continue_backtest (run cs h0) = false ->
  exists h',
    update_latest_data (run cs h0) = (Ok tt, h') /\
    latest_symbol_data h' = latest_symbol_data (run cs h0) /\
    symbol_data h' = symbol_data (run cs h0) /\
    continue_backtest h' = false /\
    events h' = events (run cs h0) ++ [MarketEvent].
Proof.
  intros Hbuilt Hpriced Hhalted.
  destruct (built_loaded _ _ Hbuilt) as [queue Hloaded].
  destruct (built_lockstep _ _ Hbuilt Hpriced) as [n0 Hstep0].
  destruct (run_lockstep cs n0 h0 (loaded_universe_ok _ _ _ Hloaded) Hstep0)
    as (Hok & n & Hstep).
  assert (n = 0%nat) as -> by (by apply (lockstep_flag _ _ Hstep)).
  destruct (update_lockstep 0 _ Hok Hstep) as [_ Hupdate].
  eexists. split; [by apply Hupdate|].
  destruct (decide (symbol_list (run cs h0) = [])); simpl; done.
Qed.

(** The worked universe after six ticks. *)
Lemma halted_update_only_posts_witness :
  let h := run (replicate 6 Update) (handler_AB ["A"; "B"]) in
  exists h',
    update_latest_data h = (Ok tt, h') /\
    latest_symbol_data h' = latest_symbol_data h /\
    symbol_data h' = symbol_data h /\
    continue_backtest h' = false /\
    events h' = events h ++ [MarketEvent].
Proof.
  apply (halted_update_only_posts (csv_native dir_AB NASDAQ)
           (handler_AB ["A"; "B"]) (replicate 6 Update)).
  - apply handler_AB_built.
  - by vm_compute.
  - by vm_compute.
Defined.

(** The buffer a symbol has, as a list (empty when the symbol has none). *)
Definition buffer_of (symbol : string) (h : Handler) : list Bar :=
  default [] (latest_symbol_data h !! symbol).

(** The rows of a symbol's aligned table. *)
Definition table_of (symbol : string) (h : Handler) : list Row :=
  match symbol_dataframe h !! symbol with
  | Some aligned => rows aligned
  | None => []
  end.

(** C5 as the specification words it, for a universe holding A and B in the
    order [symbols]. *)
Definition scenario_halts_at_fourth_tick (symbols : list string) : Prop :=
  let h := handler_AB symbols in
  length (table_of "A" h) = 5%nat /\
  drop 3 (table_of "B" h) = [(4, [Some 22%Q]); (5, [Some 22%Q])] /\
  continue_backtest (ticks 3 h) = true /\
  length (buffer_of "A" (ticks 3 h)) = 3%nat /\
  length (buffer_of "B" (ticks 3 h)) = 3%nat /\
  continue_backtest (ticks 4 h) = false /\
  length (buffer_of "A" (ticks 4 h)) = 3%nat.

(** C5 fails as worded, in either order of the universe.  With A first, B's
    table has five rows like A's, so the fourth tick reveals a fourth bar of
    both and the flag stays up.  With B first, the tables have three rows. *)
Lemma scenario_does_not_halt_at_fourth_tick :
  ~ scenario_halts_at_fourth_tick ["A"; "B"] /\
  ~ scenario_halts_at_fourth_tick ["B"; "A"].
Proof.
  split; intros Hclaim.
  - destruct Hclaim as (_ & _ & _ & _ & _ & Hflag & _).
    vm_compute in Hflag. discriminate.
  - destruct Hclaim as (Hlen & _).
    vm_compute in Hlen. discriminate.
Qed.

(** C5, amended, for the universe [A; B] and any positive prices.  The
    calendar has five points and B's rows of days 4 and 5 repeat its value of
    day 3.  After three ticks the flag is up and both buffers hold three
    bars; after the fourth it is still up and both hold four, B's fourth bar
    being the forward-filled row; after the fifth the flag is still up and
    both hold five.  The sixth tick finds both cursors exhausted: the flag
    goes down and the buffers keep their five bars. *)
Theorem scenario_halts_at_sixth_tick (a1 a2 a3 a4 a5 b1 b2 b3 : positive * positive) :
  let h := scenario_handler a1 a2 a3 a4 a5 b1 b2 b3 in
  map fst (table_of "A" h) = [1; 2; 3; 4; 5] /\
  table_of "B" h =
    [(1, [Some (price b1)]); (2, [Some (price b2)]); (3, [Some (price b3)]);
     (4, [Some (price b3)]); (5, [Some (price b3)])] /\
  continue_backtest (ticks 3 h) = true /\
  length (buffer_of "A" (ticks 3 h)) = 3%nat /\
  length (buffer_of "B" (ticks 3 h)) = 3%nat /\
  continue_backtest (ticks 4 h) = true /\
  buffer_of "A" (ticks 4 h) =
    [("A", 1, Some (price a1)); ("A", 2, Some (price a2));
     ("A", 3, Some (price a3)); ("A", 4, Some (price a4))] /\
  buffer_of "B" (ticks 4 h) =
    [("B", 1, Some (price b1)); ("B", 2, Some (price b2));
     ("B", 3, Some (price b3)); ("B", 4, Some (price b3))] /\
  continue_backtest (ticks 5 h) = true /\
  length (buffer_of "A" (ticks 5 h)) = 5%nat /\
  length (buffer_of "B" (ticks 5 h)) = 5%nat /\
  continue_backtest (ticks 6 h) = false /\
  length (buffer_of "A" (ticks 6 h)) = 5%nat /\
  length (buffer_of "B" (ticks 6 h)) = 5%nat.
Proof. by vm_compute. Qed.

(** * Prices at or below zero *)

(** A Yahoo-layout file whose second day is reported with zero prices. *)
Definition dir_yahoo : gmap string DataFrame :=
  {["Y.csv" :=
      {| columns := ["Open"; "High"; "Low"; "Close"; "Adj Close"; "Volume"];
         rows := [(1, [Some 10%Q; Some 12%Q; Some 9%Q; Some 11%Q; Some 11%Q; Some 500%Q]);
                  (2, [Some 0%Q; Some 0%Q; Some 0%Q; Some 0%Q; Some 0%Q; Some 0%Q])] |} ]}.

Definition handler_yahoo : Handler :=
  snd (HistoricCSVDataHandler.__init__ [] dir_yahoo ["Y"] YAHOO).

(** C7, on the Yahoo layout.  [parse_yahoo_csv] has no [Close > 0.0] filter:
    construction returns, the zero-priced row of day 2 is in the table, and
    the second tick appends a bar with price 0. *)
Theorem yahoo_layout_keeps_non_positive_prices :
  fst (HistoricCSVDataHandler.__init__ [] dir_yahoo ["Y"] YAHOO) = Ok tt /\
  table_of "Y" handler_yahoo =
    [(1, [Some 10%Q; Some 12%Q; Some 9%Q; Some 11%Q; Some 11%Q; Some 500%Q]);
     (2, [Some 0%Q; Some 0%Q; Some 0%Q; Some 0%Q; Some 0%Q; Some 0%Q])] /\
  (try! aligned := match symbol_dataframe handler_yahoo !! "Y" with
                   | Some aligned => Ok aligned
                   | None => Raise KeyError
                   end in
   getitem aligned "Close") = Ok [(1, Some 11%Q); (2, Some 0%Q)] /\
  buffer_of "Y" (ticks 2 handler_yahoo) = [("Y", 1, Some 10%Q); ("Y", 2, Some 0%Q)].
Proof. by vm_compute. Qed.



(** The NASDAQ layout and the Quandl loader do filter: what follows shows
    that their tables and bars hold no price at or below zero. *)

Definition positive_or_NaN (c : option Q) : Prop :=
  match c with
  | Some q => (0 < q)%Q
  | None => True
  end.

(** A loader whose native frames have the single column [Close], with
    positive prices only. *)
Definition filtering (load : string -> result DataFrame) : Prop :=
  forall s df, load s = Ok df ->
    columns df = ["Close"] /\
    Forall (fun r : Row => positive_or_NaN (iat 0 (snd r))) (rows df).

Lemma Qltb_lt x y : Qltb x y = true -> (x < y)%Q.
Proof.
  unfold Qltb. intros H. apply negb_true_iff in H.
  apply Qnot_le_lt. intros Hle. apply Qle_bool_iff in Hle. congruence.
Qed.

Lemma gt0_positive c : gt0 c = true -> positive_or_NaN c.
Proof. destruct c as [q|]; simpl; [apply Qltb_lt | done]. Qed.

Lemma where_close_positive_single df df' :
  columns df = ["Close"] ->
  where_close_positive df = Ok df' ->
  columns df' = ["Close"] /\
  Forall (fun r : Row => positive_or_NaN (iat 0 (snd r))) (rows df').
Proof.
  intros Hcols. unfold where_close_positive. rewrite Hcols. simpl.
  intros [= <-]. simpl. split; [done|].
  apply Forall_forall. intros r Hr.
  apply list_elem_of_filter in Hr as [Hr _]. by apply gt0_positive.
Qed.

Lemma nasdaq_filtering csv_dir : filtering (csv_native csv_dir NASDAQ).
Proof.
  intros s df. unfold csv_native. rewrite decide_True by done.
  unfold nasdaq_csv_native.
  destruct (HistoricCSVDataHandler.read_csv csv_dir s) as [file|e]; [|done].
  cbn [rbind].
  destruct (getitem (iloc_reversed file) "Closing price") as [closing|e]; [|done].
  cbn [rbind]. by apply where_close_positive_single.
Qed.

Lemma quandl_filtering quandl_get start_date end_date :
  filtering (quandl_native quandl_get start_date end_date).
Proof.
  intros s df. unfold quandl_native.
  destruct (quandl_get _ _ _) as [df0|e]; [|done]. cbn [rbind].
  destruct (drop_columns
              ["High"; "Low"; "Total Market Value"; "Dividend Market Value"] df0)
    as [df1|e]; [|done].
  cbn [rbind].
  destruct (set_columns ["Close"] df1) as [df2|e] eqn:Hset; [|done]. cbn [rbind].
  apply where_close_positive_single.
  unfold set_columns in Hset. by destruct (decide _); simplify_eq.
Qed.

(** Forward-filling a frame of positive prices gives positive prices or NaN. *)
Lemma reindex_pad_positive df target aligned :
  reindex_pad df target = Ok aligned ->
  columns df = ["Close"] ->
  Forall (fun r : Row => positive_or_NaN (iat 0 (snd r))) (rows df) ->
  Forall (fun r : Row => positive_or_NaN (iat 0 (snd r))) (rows aligned).
Proof.
  intros Hpad Hcols Hrows.
  apply Forall_forall. intros r Hr.
  destruct (reindex_pad_rows _ _ _ Hpad r Hr) as [->|(r' & Hr' & ->)].
  - unfold nan_row. by rewrite Hcols.
  - rewrite Forall_forall in Hrows. by apply Hrows.
Qed.

(** Neither the rows still to be replayed nor the buffered bars hold a price
    at or below zero. *)
Record prices_ok (h : Handler) : Prop := {
  cursor_prices : forall s remaining,
    symbol_data h !! s = Some (RowIter remaining) ->
    Forall (fun r : Row => positive_or_NaN (iat 0 (snd r))) remaining;
  buffer_prices : forall s buffer,
    latest_symbol_data h !! s = Some buffer ->
    Forall (fun bar : Bar => positive_or_NaN (snd bar)) buffer
}.

Lemma update_symbol_prices_ok symbol h :
  prices_ok h -> prices_ok (snd (update_symbol symbol h)).
Proof.
  intros [Hcursors Hbuffers]. rewrite update_symbol_eq.
  destruct (symbol_data h !! symbol) as [[df|[|[T cells] remaining]]|] eqn:Hcursor;
    simpl; try done.
  pose proof (Hcursors symbol _ Hcursor) as Hrows.
  apply Forall_cons in Hrows as [Hrow Hremaining]. simpl in Hrow.
  assert (forall s rem,
            <[symbol := RowIter remaining]> (symbol_data h) !! s = Some (RowIter rem) ->
            Forall (fun r : Row => positive_or_NaN (iat 0 (snd r))) rem) as Hcursors'.
  { intros s rem. destruct (decide (s = symbol)) as [->|Hne].
    - rewrite lookup_insert_eq. by intros [= <-].
    - rewrite lookup_insert_ne by done. apply Hcursors. }
  destruct cells as [|price cells]; simpl; [done|].
  destruct (latest_symbol_data h !! symbol) as [buffer|] eqn:Hbuffer; simpl; [|done].
  split; simpl; [done|].
  intros s buf. destruct (decide (s = symbol)) as [->|Hne].
  - rewrite lookup_insert_eq. intros [= <-].
    apply Forall_app. split; [by eapply Hbuffers|].
    by constructor.
  - rewrite lookup_insert_ne by done. apply Hbuffers.
Qed.

Lemma exec_prices_ok c h : prices_ok h -> prices_ok (exec c h).
Proof.
  intros Hok. destruct c as [|symbol N|]; simpl.
  - rewrite update_latest_data_eq.
    assert (prices_ok (snd (for_each (symbol_list h) update_symbol h))) as Hloop.
    { revert Hok.
      apply (for_each_update_ind (fun h h' => prices_ok h -> prices_ok h')); [done|].
      intros s h1 h2 IH H1. by apply IH, update_symbol_prices_ok. }
    destruct (for_each (symbol_list h) update_symbol h) as [[[]|e] h1]; [|done].
    by destruct Hloop.
  - rewrite get_latest_data_eq.
    destruct (latest_symbol_data h !! symbol); [done | by destruct Hok].
  - by rewrite create_baseline_dataframe_state.
Qed.

(** With a filtering loader, no table row, no row to replay and no buffered
    bar ever holds a price at or below zero: the property C7 asks for holds
    on the NASDAQ layout and on the Quandl handler. *)
Lemma filtering_loader_prices load h0 cs :
  built load h0 ->
  filtering load ->
  (forall s r, s ∈ symbol_list h0 -> r ∈ table_of s (run cs h0) ->
     positive_or_NaN (iat 0 (snd r))) /\
  prices_ok (run cs h0).
Proof.
  intros Hbuilt Hfilter.
  destruct (built_loaded _ _ Hbuilt) as [queue Hloaded].
  assert (forall s df aligned, s ∈ symbol_list h0 -> load s = Ok df ->
            reindex_pad df (calendar load (symbol_list h0)) = Ok aligned ->
            Forall (fun r : Row => positive_or_NaN (iat 0 (snd r))) (rows aligned))
    as Haligned.
  { intros s df aligned _ Hload Hpad. destruct (Hfilter s df Hload).
    by apply (reindex_pad_positive _ _ _ Hpad). }
  split.
  - intros s r Hs. unfold table_of.
    destruct (run_static cs h0) as [_ ->].
    destruct (loaded_in _ _ _ _ Hloaded s Hs) as (df & aligned & Hload & Hpad & -> & _).
    intros Hr. specialize (Haligned s df aligned Hs Hload Hpad).
    rewrite Forall_forall in Haligned. by apply Haligned.
  - assert (prices_ok h0) as Hstart.
    { split.
      - intros s remaining Hcursor.
        destruct (decide (s ∈ symbol_list h0)) as [Hs|Hs].
        + destruct (loaded_in _ _ _ _ Hloaded s Hs)
            as (df & aligned & Hload & Hpad & _ & Hiter & _).
          rewrite Hiter in Hcursor. injection Hcursor as <-. by eapply Haligned.
        + destruct (loaded_out _ _ _ _ Hloaded s Hs) as [_ Hnone]. congruence.
      - intros s buffer Hbuffer.
        destruct (decide (s ∈ symbol_list h0)) as [Hs|Hs].
        + destruct (loaded_in _ _ _ _ Hloaded s Hs)
            as (df & aligned & _ & _ & _ & _ & Hempty).
          rewrite Hempty in Hbuffer. by injection Hbuffer as <-.
        + destruct (loaded_out _ _ _ _ Hloaded s Hs) as [Hnone _]. congruence. }
    clear -Hstart. revert h0 Hstart.
    induction cs as [|c cs IH]; intros h0 Hstart; simpl; [done|].
    by apply IH, exec_prices_ok.
Qed.


(** * Column assignment *)










Section PutColumn.
Variable pos : option nat.
Variable width : nat.




Hypothesis pos_lt : forall j, pos = Some j -> (j < width)%nat.

End PutColumn.



(** * The baseline report *)
























(** * Double arithmetic: where NaN comes from

    Rounding a non-negative mantissa gives a zero, a finite number or an
    infinity, never NaN. *)

































(** The running product is not the exact ratio to the first close: with A's
    closes 10, 11, 12, 13, 14 the fourth and fifth rows hold
    1.2999999999999998 and 1.3999999999999997, one unit in the last place
    below the doubles of 13/10 and 14/10. *)
Lemma baseline_is_not_the_ratio_to_the_first_close :
  (try! report := match fst (create_baseline_dataframe (handler_AB ["A"; "B"])) with
                  | Ok (Some report) => Ok report
                  | _ => Raise ValueError
                  end in
   try! column := float64.getitem report "A" in
   Ok (drop 3 column)) =
    Ok [(4, S754_finite false 5854679515581644 (-52));
        (5, S754_finite false 6305039478318693 (-52))] /\
  to_double (13 # 10) = S754_finite false 5854679515581645 (-52) /\
  to_double (14 # 10) = S754_finite false 6305039478318694 (-52).
Proof. by vm_compute. Qed.



(** * Further properties of the replay *)

(** The bar that the replay makes of a table row. *)
Definition bar_of (symbol : string) (r : Row) : Bar :=
  (symbol, fst r, iat 0 (snd r)).

(** The number of [update_latest_data] calls in a sequence of calls. *)
Fixpoint updates (cs : list call) : nat :=
  match cs with
  | [] => 0%nat
  | Update :: cs' => S (updates cs')
  | _ :: cs' => updates cs'
  end.

(** With a priced row left on every cursor, the loop moves that row from each
    cursor to the end of the symbol's buffer. *)
Lemma loop_reveals l : forall h,
  NoDup l ->
  (forall s, s ∈ l ->
     exists row remaining buffer,
       symbol_data h !! s = Some (RowIter (row :: remaining)) /\
       snd row <> [] /\ latest_symbol_data h !! s = Some buffer) ->
  exists h',
    for_each l update_symbol h = (Ok tt, h') /\
    continue_backtest h' = continue_backtest h /\
    (forall s row remaining buffer, s ∈ l ->
       symbol_data h !! s = Some (RowIter (row :: remaining)) ->
       latest_symbol_data h !! s = Some buffer ->
       symbol_data h' !! s = Some (RowIter remaining) /\
       latest_symbol_data h' !! s = Some (buffer ++ [bar_of s row])) /\
    (forall s, s ∉ l ->
       symbol_data h' !! s = symbol_data h !! s /\
       latest_symbol_data h' !! s = latest_symbol_data h !! s).
Proof.
  induction l as [|x l IH]; intros h Hnodup Hall.
  - exists h. split_and!; try done.
    intros s row remaining buffer Hs. by apply elem_of_nil in Hs.
  - apply NoDup_cons in Hnodup as [Hxl Hnodup].
    destruct (Hall x) as ([T cells] & remaining & buffer & Hcursor & Hprice & Hbuffer);
      [by left|].
    destruct cells as [|price cells]; [done|].
    set (h1 := set_latest_symbol_data <[x := buffer ++ [(x, T, price)]]>
                 (set_symbol_data <[x := RowIter remaining]> h)).
    assert (update_symbol x h = (Ok tt, h1)) as Hstep.
    { by rewrite update_symbol_eq, Hcursor, Hbuffer. }
    destruct (IH h1 Hnodup) as (h' & Hrun & Hflag & Hin & Hout).
    { intros s Hs. destruct (Hall s) as (row & rem & buf & ? & ? & ?); [by right|].
      exists row, rem, buf. assert (x <> s) by (intros ->; done).
      subst h1. simpl. by rewrite !lookup_insert_ne. }
    exists h'. split_and!.
    + simpl. unfold bind. by rewrite Hstep.
    + by rewrite Hflag.
    + intros s row rem buf Hs Hrow Hbuf. apply elem_of_cons in Hs as [->|Hs].
      * destruct (Hout x Hxl) as [-> ->]. subst h1. simpl.
        rewrite !lookup_insert_eq.
        assert (row = (T, price :: cells) /\ rem = remaining /\ buf = buffer)
          as (-> & -> & ->) by (split_and!; congruence).
        done.
      * assert (x <> s) by (intros ->; done).
        apply (Hin s row rem buf Hs); subst h1; simpl; by rewrite lookup_insert_ne.
    + intros s Hs. apply not_elem_of_cons in Hs as [Hne Hs].
      destruct (Hout s Hs) as [-> ->]. subst h1. simpl.
      by rewrite !lookup_insert_ne.
Qed.

(** [replayed h0 k h]: [h] is [h0] after [k] advances: every cursor is [k]
    rows into its table, every buffer holds the bars of the rows passed, one
    event was posted per advance, and the flag is up as long as no advance
    found the cursors exhausted. *)
Record replayed (h0 : Handler) (k : nat) (h : Handler) : Prop := {
  replayed_symbol_list : symbol_list h = symbol_list h0;
  replayed_cursor : forall s, s ∈ symbol_list h0 ->
    symbol_data h !! s = Some (RowIter (drop k (table_of s h0)));
  replayed_buffer : forall s, s ∈ symbol_list h0 ->
    latest_symbol_data h !! s = Some (map (bar_of s) (take k (table_of s h0)));
  replayed_events : events h = events h0 ++ replicate k MarketEvent;
  replayed_flag : forall s, s ∈ symbol_list h0 ->
    continue_backtest h = bool_decide (k <= length (table_of s h0))%nat
}.

Section Replay.
Variable h0 : Handler.
Variable len : nat.
Hypothesis universe_once : NoDup (symbol_list h0).
Hypothesis tables_len : forall s, s ∈ symbol_list h0 -> length (table_of s h0) = len.
Hypothesis tables_priced : forall s, s ∈ symbol_list h0 ->
  Forall (fun r : Row => snd r <> []) (table_of s h0).

Lemma replayed_update k h :
  replayed h0 k h ->
  exists h', update_latest_data h = (Ok tt, h') /\ replayed h0 (S k) h'.
Proof.
  intros [Hsl Hcursor Hbuffer Hevents Hflag].
  rewrite update_latest_data_eq, Hsl.
  destruct (decide (k < len)%nat) as [Hk|Hk].
  - destruct (loop_reveals (symbol_list h0) h universe_once)
      as (h1 & Hrun & Hflag1 & Hin & Hout).
    { intros s Hs.
      destruct (lookup_lt_is_Some_2 (table_of s h0) k) as [row Hrow];
        [rewrite tables_len by done; lia|].
      exists row, (drop (S k) (table_of s h0)), (map (bar_of s) (take k (table_of s h0))).
      split_and!.
      - rewrite Hcursor by done. by rewrite (drop_S _ _ _ Hrow).
      - specialize (tables_priced s Hs). rewrite Forall_lookup in tables_priced.
        by apply (tables_priced k).
      - by apply Hbuffer. }
    pose proof (for_each_update_frame (symbol_list h0) h) as (Hsl1 & Hev1 & _).
    rewrite Hrun in *. simpl in Hsl1, Hev1.
    assert (forall s, s ∈ symbol_list h0 ->
              exists row, table_of s h0 !! k = Some row /\
                symbol_data h1 !! s = Some (RowIter (drop (S k) (table_of s h0))) /\
                latest_symbol_data h1 !! s =
                  Some (map (bar_of s) (take k (table_of s h0)) ++ [bar_of s row]))
      as Hstep.
    { intros s Hs.
      destruct (lookup_lt_is_Some_2 (table_of s h0) k) as [row Hrow];
        [rewrite tables_len by done; lia|].
      exists row. split; [done|].
      apply (Hin s row (drop (S k) (table_of s h0))
               (map (bar_of s) (take k (table_of s h0))) Hs); [|by apply Hbuffer].
      rewrite Hcursor by done. by rewrite (drop_S _ _ _ Hrow). }
    eexists. split; [done|]. split; simpl.
    + congruence.
    + intros s Hs. by destruct (Hstep s Hs) as (row & _ & -> & _).
    + intros s Hs. destruct (Hstep s Hs) as (row & Hrow & _ & ->).
      by rewrite (take_S_r _ _ _ Hrow), map_app.
    + rewrite Hev1, Hevents, replicate_cons_app. by rewrite app_assoc.
    + intros s Hs. rewrite Hflag1, (Hflag s Hs), tables_len by done.
      rewrite !bool_decide_eq_true_2 by lia. done.
  - rewrite loop_exhausted.
    2:{ intros s Hs. rewrite Hcursor by done.
        rewrite drop_ge; [done|]. rewrite tables_len by done. lia. }
    eexists. split; [done|]. split; simpl.
    + by destruct (decide (symbol_list h0 = [])).
    + intros s Hs.
      assert (drop (S k) (table_of s h0) = drop k (table_of s h0)) as ->.
      { rewrite !drop_ge; [done|rewrite tables_len by done; lia..]. }
      destruct (decide (symbol_list h0 = [])); simpl; by apply Hcursor.
    + intros s Hs.
      assert (take (S k) (table_of s h0) = take k (table_of s h0)) as ->.
      { rewrite !take_ge; [done|rewrite tables_len by done; lia..]. }
      destruct (decide (symbol_list h0 = [])); simpl; by apply Hbuffer.
    + rewrite replicate_cons_app, app_assoc, <- Hevents.
      by destruct (decide (symbol_list h0 = [])).
    + intros s Hs. rewrite tables_len by done.
      rewrite bool_decide_eq_false_2 by lia.
      destruct (decide (symbol_list h0 = [])) as [Hnil|]; [|done].
      rewrite Hnil in Hs. by apply elem_of_nil in Hs.
Qed.

Lemma replayed_exec c k h :
  replayed h0 k h ->
  replayed h0 (match c with Update => S k | _ => k end) (exec c h).
Proof.
  intros Hk. destruct c as [|symbol N|]; simpl.
  - destruct (replayed_update k h Hk) as (h' & -> & Hk'). done.
  - rewrite get_latest_data_eq.
    destruct (latest_symbol_data h !! symbol); [done|]. by destruct Hk.
  - by rewrite create_baseline_dataframe_state.
Qed.

Lemma replayed_run cs : forall k h,
  replayed h0 k h -> replayed h0 (k + updates cs) (run cs h).
Proof.
  induction cs as [|c cs IH]; intros k h Hk; simpl.
  - by rewrite Nat.add_0_r.
  - pose proof (replayed_exec c k h Hk) as Hstep.
    destruct c; simpl in *.
    + rewrite Nat.add_succ_r. by apply (IH (S k)).
    + by apply IH.
    + by apply IH.
Qed.
End Replay.

(** A handler as a constructor returns it, its tables having a price cell in
    every row, is at the start of a replay. *)
Lemma built_replay_start load h0 :
  built load h0 ->
  priced h0 = true ->
  NoDup (symbol_list h0) /\
  (exists len, forall s, s ∈ symbol_list h0 -> length (table_of s h0) = len) /\
  (forall s, s ∈ symbol_list h0 ->
     Forall (fun r : Row => snd r <> []) (table_of s h0)) /\
  replayed h0 0 h0.
Proof.
  intros Hbuilt Hpriced.
  destruct (built_loaded _ _ Hbuilt) as [queue Hloaded].
  destruct (built_lockstep _ _ Hbuilt Hpriced) as [len [Hcursors _]].
  assert (forall s, s ∈ symbol_list h0 ->
            symbol_data h0 !! s = Some (RowIter (table_of s h0)) /\
            latest_symbol_data h0 !! s = Some []) as Hstart.
  { intros s Hs. unfold table_of.
    by destruct (loaded_in _ _ _ _ Hloaded s Hs)
      as (df & aligned & _ & _ & -> & -> & ->). }
  split_and!.
  - apply (loaded_NoDup _ _ _ _ Hloaded).
  - exists len. intros s Hs. destruct (Hstart s Hs) as [Hcursor _].
    destruct (Hcursors s Hs) as (remaining & Hrem & Hlen & _). congruence.
  - intros s Hs. destruct (Hstart s Hs) as [Hcursor _].
    destruct (Hcursors s Hs) as (remaining & Hrem & _ & Hrows). congruence.
  - split.
    + done.
    + intros s Hs. by destruct (Hstart s Hs) as [-> _].
    + intros s Hs. by destruct (Hstart s Hs) as [_ ->].
    + simpl. by rewrite app_nil_r.
    + intros s Hs. rewrite (loaded_running _ _ _ _ Hloaded).
      symmetry. apply bool_decide_eq_true_2. lia.
Qed.

Lemma built_replayed load h0 cs :
  built load h0 ->
  priced h0 = true ->
  replayed h0 (updates cs) (run cs h0).
Proof.
  intros Hbuilt Hpriced.
  destruct (built_replay_start _ _ Hbuilt Hpriced)
    as (Hnodup & [len Hlen] & Hrows & Hstart).
  apply (replayed_run h0 len Hnodup Hlen Hrows cs 0 h0 Hstart).
Qed.

(** X1. Whatever calls were made on a handler, a symbol's buffer holds the
    bars of the first [k] rows of its aligned table, in table order, [k]
    being the number of advances made: no row is skipped, repeated or
    reordered, and reading the buffers or the report does not move the
    replay. *)
Theorem buffer_is_the_table_prefix load h0 cs s :
  built load h0 ->
  priced h0 = true ->
  s ∈ symbol_list h0 ->
  latest_symbol_data (run cs h0) !! s =
  Some (map (bar_of s) (take (updates cs) (table_of s h0))).
Proof.
  intros Hbuilt Hpriced Hs.
  by apply (replayed_buffer _ _ _ (built_replayed _ _ cs Hbuilt Hpriced)).
Qed.

(** B in the worked universe after three advances and two reads. *)
Lemma buffer_is_the_table_prefix_witness :
  latest_symbol_data
    (run [Update; GetLatest "A" 1; Update; Baseline; Update] (handler_AB ["A"; "B"]))
    !! "B" =
  Some (map (bar_of "B")
          (take (updates [Update; GetLatest "A" 1; Update; Baseline; Update])
                (table_of "B" (handler_AB ["A"; "B"])))).
Proof.
  apply (buffer_is_the_table_prefix (csv_native dir_AB NASDAQ)).
  - apply handler_AB_built.
  - by vm_compute.
  - vm_compute. apply list_elem_of_In. simpl. auto.
Defined.

(** X2. The running flag is up exactly as long as the number of advances
    made does not exceed the number of rows of the tables: the advance that
    lowers it is the one after the last row, and it reveals nothing. *)
Theorem running_until_one_past_the_last_row load h0 cs s :
  built load h0 ->
  priced h0 = true ->
  s ∈ symbol_list h0 ->
  continue_backtest (run cs h0) =
  bool_decide (updates cs <= length (table_of s h0))%nat.
Proof.
  intros Hbuilt Hpriced Hs.
  by apply (replayed_flag _ _ _ (built_replayed _ _ cs Hbuilt Hpriced)).
Qed.

(** The worked universe has five rows: six advances lower the flag. *)
Lemma running_until_one_past_the_last_row_witness :
  continue_backtest (run (replicate 6 Update) (handler_AB ["A"; "B"])) =
  bool_decide (updates (replicate 6 Update) <=
               length (table_of "A" (handler_AB ["A"; "B"])))%nat.
Proof.
  apply (running_until_one_past_the_last_row (csv_native dir_AB NASDAQ)).
  - apply handler_AB_built.
  - by vm_compute.
  - vm_compute. apply list_elem_of_In. simpl. auto.
Defined.

(** X3. On such a handler every advance returns normally, and the queue
    holds one [MarketEvent] more per advance made, whether or not the advance
    revealed a bar; the other calls post nothing. *)
Theorem one_event_per_advance load h0 cs :
  built load h0 ->
  priced h0 = true ->
  fst (update_latest_data (run cs h0)) = Ok tt /\
  events (run cs h0) = events h0 ++ replicate (updates cs) MarketEvent.
Proof.
  intros Hbuilt Hpriced.
  pose proof (built_replayed _ _ cs Hbuilt Hpriced) as Hk.
  destruct (built_replay_start _ _ Hbuilt Hpriced)
    as (Hnodup & [len Hlen] & Hrows & _).
  split.
  - destruct (replayed_update h0 len Hnodup Hlen Hrows _ _ Hk) as (h' & -> & _).
    done.
  - apply (replayed_events _ _ _ Hk).
Qed.

(** Eight advances of the worked universe, three of them past its end. *)
Lemma one_event_per_advance_witness :
  fst (update_latest_data
         (run [Update; Update; GetLatest "B" 3; Update; Update; Update;
               Update; Baseline; Update; Update] (handler_AB ["A"; "B"]))) = Ok tt /\
  events (run [Update; Update; GetLatest "B" 3; Update; Update; Update;
               Update; Baseline; Update; Update] (handler_AB ["A"; "B"])) =
  events (handler_AB ["A"; "B"]) ++
  replicate (updates [Update; Update; GetLatest "B" 3; Update; Update; Update;
                      Update; Baseline; Update; Update]) MarketEvent.
Proof.
  apply (one_event_per_advance (csv_native dir_AB NASDAQ)).
  - apply handler_AB_built.
  - by vm_compute.
Defined.

(** X4. After the advance that passed row [n] of the tables,
    [get_latest_data(symbol)] with the default count 1 returns the bar of
    that row and nothing else, and leaves the handler as it is. *)
Theorem latest_bar_is_the_last_row_passed load h0 cs s n row :
  built load h0 ->
  priced h0 = true ->
  s ∈ symbol_list h0 ->
  updates cs = S n ->
  table_of s h0 !! n = Some row ->
  get_latest_data s 1 (run cs h0) = (Ok [bar_of s row], run cs h0).
Proof.
  intros Hbuilt Hpriced Hs Hk Hrow.
  pose proof (replayed_buffer _ _ _ (built_replayed _ _ cs Hbuilt Hpriced) s Hs)
    as Hbuffer.
  rewrite Hk, (take_S_r _ _ _ Hrow), map_app in Hbuffer. simpl in Hbuffer.
  rewrite get_latest_data_eq, Hbuffer, slice_from_last by lia.
  rewrite length_app. simpl.
  replace (length (map (bar_of s) (take n (table_of s h0))) + 1 - Z.to_nat 1)%nat
    with (length (map (bar_of s) (take n (table_of s h0)))) by lia.
  by rewrite drop_app_length.
Qed.

(** After two advances A's latest bar is the one of day 2. *)
Lemma latest_bar_is_the_last_row_passed_witness :
  get_latest_data "A" 1 (run [Update; Update] (handler_AB ["A"; "B"])) =
  (Ok [bar_of "A" (2, [Some 11%Q])], run [Update; Update] (handler_AB ["A"; "B"])).
Proof.
  apply (latest_bar_is_the_last_row_passed (csv_native dir_AB NASDAQ)
           (handler_AB ["A"; "B"]) [Update; Update] "A" 1).
  - apply handler_AB_built.
  - by vm_compute.
  - vm_compute. apply list_elem_of_In. simpl. auto.
  - reflexivity.
  - by vm_compute.
Defined.

(** * Further properties of construction *)

(** A list with a repeated element has a first repetition. *)
Lemma first_repetition {A} `{EqDecision A} (l : list A) :
  ~ NoDup l ->
  exists l1 x l2, l = l1 ++ x :: l2 /\ NoDup l1 /\ x ∈ l1.
Proof.
  induction l as [|a l IH]; intros Hdup.
  - destruct Hdup. constructor.
  - destruct (decide (NoDup l)) as [Hl|Hl].
    + assert (a ∈ l) as Ha.
      { destruct (decide (a ∈ l)); [done|]. destruct Hdup. by constructor. }
      apply list_elem_of_split_l in Ha as (p & q & -> & Hp).
      exists (a :: p), a, q. split_and!; [done | | by left].
      apply NoDup_app in Hl as (Hpn & _ & _). by constructor.
    + destruct (IH Hl) as (l1 & x & l2 & -> & Hl1 & Hx).
      destruct (decide (a ∈ l1)) as [Ha|Ha].
      * apply list_elem_of_split_l in Ha as (p & q & -> & Hp).
        exists (a :: p), a, (q ++ x :: l2). split_and!; [| | by left].
        -- by rewrite <- !app_assoc.
        -- apply NoDup_app in Hl1 as (Hpn & _ & _). by constructor.
      * exists (a :: l1), x, l2. split_and!; [done | by constructor | by right].
Qed.

Section LoadingForward.
Variable parse : string -> M unit.
Variable load : string -> result DataFrame.
Hypothesis parse_load : forall s h,
  match load s with
  | Ok df => parse s h = (Ok tt, set_symbol_data <[s := Frame df]> h)
  | Raise e => exists h', parse s h = (Raise e, h')
  end.

(** The first loop stops at the first symbol that does not load, with that
    symbol's error. *)
Lemma first_pass_raise before s after e :
  (forall x, x ∈ before -> exists df, load x = Ok df) ->
  load s = Raise e ->
  forall acc h, exists h',
    for_fold (before ++ s :: after) (load_symbol parse) acc h = (Raise e, h').
Proof.
  intros Hbefore Hs. induction before as [|x before IH]; intros acc h; simpl.
  - pose proof (load_symbol_eq parse load parse_load acc s h) as Hstep.
    rewrite Hs in Hstep. destruct Hstep as [h' Hstep]. exists h'.
    unfold bind. by rewrite Hstep.
  - destruct (Hbefore x) as [df Hx]; [by left|].
    pose proof (load_symbol_eq parse load parse_load acc x h) as Hstep.
    rewrite Hx in Hstep. unfold bind at 1. rewrite Hstep.
    apply IH. intros y Hy. apply Hbefore. by right.
Qed.

Lemma first_pass_returns l :
  (forall x, x ∈ l -> exists df, load x = Ok df) ->
  forall acc h, exists r h',
    for_fold l (load_symbol parse) acc h = (Ok r, h').
Proof.
  intros Hall. induction l as [|x l IH]; intros acc h; simpl.
  - by eexists _, _.
  - destruct (Hall x) as [df Hx]; [by left|].
    pose proof (load_symbol_eq parse load parse_load acc x h) as Hstep.
    rewrite Hx in Hstep. unfold bind at 1. rewrite Hstep.
    apply IH. intros y Hy. apply Hall. by right.
Qed.

(** The second loop returns when no symbol is listed twice and every frame
    can be reindexed. *)
Lemma second_pass_returns ci l : forall h,
  NoDup l ->
  (forall s, s ∈ l ->
     exists df aligned,
       symbol_data h !! s = Some (Frame df) /\ reindex_pad df ci = Ok aligned) ->
  exists h', for_each l (align_symbol ci) h = (Ok tt, h').
Proof.
  induction l as [|x l IH]; intros h Hnodup Hframes; simpl.
  - by eexists.
  - apply NoDup_cons in Hnodup as [Hxl Hnodup].
    destruct (Hframes x) as (df & aligned & Hx & Hpad); [by left|].
    unfold bind at 1. rewrite align_symbol_eq, Hx, Hpad.
    apply IH; [done|]. intros s Hs.
    destruct (Hframes s) as (df' & aligned' & Hs' & Hpad'); [by right|].
    exists df', aligned'. simpl. rewrite lookup_insert_ne; [done|]. intros ->. done.
Qed.

(** The second loop meets the row iterator it left at the first visit when
    it comes to a symbol a second time. *)
Lemma second_pass_repeated ci l h :
  ~ NoDup l ->
  (forall s, s ∈ l ->
     exists df aligned,
       symbol_data h !! s = Some (Frame df) /\ reindex_pad df ci = Ok aligned) ->
  exists h', for_each l (align_symbol ci) h = (Raise AttributeError, h').
Proof.
  intros Hdup Hframes.
  destruct (first_repetition l Hdup) as (l1 & x & l2 & -> & Hl1 & Hx).
  destruct (second_pass_returns ci l1 h Hl1) as [h1 Hrun].
  { intros s Hs. apply Hframes. apply elem_of_app. by left. }
  pose proof (second_pass ci l1 h h1 Hrun) as (_ & Hin & _).
  destruct (Hin x Hx) as (df & aligned & _ & _ & _ & Hiter).
  exists h1. rewrite for_each_app, Hrun. simpl. unfold bind.
  by rewrite align_symbol_eq, Hiter.
Qed.


Lemma load_and_align_raise queue before s after e :
  (forall x, x ∈ before -> exists df, load x = Ok df) ->
  load s = Raise e ->
  fst (load_and_align parse (fresh queue (before ++ s :: after))) = Raise e.
Proof.
  intros Hbefore Hs. unfold load_and_align. unfold bind at 1. unfold gets. simpl.
  destruct (first_pass_raise before s after e Hbefore Hs None
              (fresh queue (before ++ s :: after))) as [h' Hrun].
  unfold bind. by rewrite Hrun.
Qed.

Lemma load_and_align_result queue symbols :
  (forall x, x ∈ symbols -> exists df, load x = Ok df /\ chronological df) ->
  fst (load_and_align parse (fresh queue symbols)) =
  if decide (NoDup symbols) then Ok tt else Raise AttributeError.
Proof.
  intros Hall. unfold load_and_align. unfold bind at 1. unfold gets. simpl.
  destruct (first_pass_returns symbols) with (acc := @None (list Z))
    (h := fresh queue symbols) as (ci & h1 & Hfirst).
  { intros x Hx. destruct (Hall x Hx) as (df & ? & _). by exists df. }
  unfold bind. rewrite Hfirst.
  pose proof (first_pass parse load parse_load symbols _ _ _ _ Hfirst)
    as (_ & Hin & _).
  assert (forall s, s ∈ symbols ->
            exists df aligned,
              symbol_data h1 !! s = Some (Frame df) /\ reindex_pad df ci = Ok aligned)
    as Hframes.
  { intros s Hs. destruct (Hin s Hs) as (df & Hload & ? & _).
    destruct (Hall s Hs) as (df' & Hload' & Hchrono).
    assert (df' = df) as -> by congruence.
    destruct ci as [ci|].
    - exists df, (take_located pad_locate df ci).
      split; [done | by apply reindex_pad_chronological].
    - by exists df, df. }
  destruct (decide (NoDup symbols)) as [Hnodup|Hdup].
  - destruct (second_pass_returns ci symbols h1 Hnodup Hframes) as [h' ->]. done.
  - destruct (second_pass_repeated ci symbols h1 Hdup Hframes) as [h' ->]. done.
Qed.

End LoadingForward.


Lemma csv_parse_load csv_dir source s h :
  match csv_native csv_dir source s with
  | Ok df =>
      (if decide (source = NASDAQ)
       then HistoricCSVDataHandler.parse_nasdaq_csv csv_dir s
       else HistoricCSVDataHandler.parse_yahoo_csv csv_dir s) h =
      (Ok tt, set_symbol_data <[s := Frame df]> h)
  | Raise e =>
      exists h',
        (if decide (source = NASDAQ)
         then HistoricCSVDataHandler.parse_nasdaq_csv csv_dir s
         else HistoricCSVDataHandler.parse_yahoo_csv csv_dir s) h = (Raise e, h')
  end.
Proof.
  unfold csv_native. destruct (decide (source = NASDAQ)).
  - apply parse_nasdaq_csv_load.
  - apply parse_yahoo_csv_load.
Qed.

Lemma get_loc_None name cols : name ∉ cols -> get_loc name cols = None.
Proof.
  induction cols as [|c cols IH]; intros Hnotin; simpl; [done|].
  apply not_elem_of_cons in Hnotin as [Hne Hnotin].
  rewrite decide_False by done. by rewrite IH.
Qed.

(** X5. When the file of a symbol is not in the directory, the symbols
    listed before it having loaded, construction raises [FileNotFoundError],
    under either layout: no handler is built for a part of the universe. *)
Theorem missing_file_fails_construction queue csv_dir before s after source :
  (forall x, x ∈ before -> exists df, csv_native csv_dir source x = Ok df) ->
  csv_dir !! (s +:+ ".csv") = None ->
  fst (HistoricCSVDataHandler.__init__ queue csv_dir (before ++ s :: after) source) =
  Raise FileNotFoundError.
Proof.
  intros Hbefore Hmissing.
  unfold HistoricCSVDataHandler.__init__, HistoricCSVDataHandler._open_convert_csv_files.
  apply (load_and_align_raise _ (csv_native csv_dir source)).
  - intros x h. apply csv_parse_load.
  - done.
  - unfold csv_native, nasdaq_csv_native, HistoricCSVDataHandler.read_csv.
    rewrite Hmissing. by destruct (decide (source = NASDAQ)).
Qed.

(** The worked directory has no file for C. *)
Lemma missing_file_fails_construction_witness :
  fst (HistoricCSVDataHandler.__init__ [] dir_AB (["A"] ++ "C" :: ["B"]) NASDAQ) =
  Raise FileNotFoundError.
Proof.
  apply missing_file_fails_construction.
  - intros x Hx. apply list_elem_of_In in Hx. simpl in Hx.
    destruct Hx as [<-|[]]. eexists. vm_compute. reflexivity.
  - by vm_compute.
Defined.

(** X6. Under the NASDAQ layout, a file without a [Closing price] column
    makes construction raise [KeyError]. *)
Theorem missing_closing_price_fails_construction queue csv_dir before s after file :
  (forall x, x ∈ before -> exists df, csv_native csv_dir NASDAQ x = Ok df) ->
  csv_dir !! (s +:+ ".csv") = Some file ->
  "Closing price" ∉ columns file ->
  fst (HistoricCSVDataHandler.__init__ queue csv_dir (before ++ s :: after) NASDAQ) =
  Raise KeyError.
Proof.
  intros Hbefore Hfile Hcolumn.
  unfold HistoricCSVDataHandler.__init__, HistoricCSVDataHandler._open_convert_csv_files.
  apply (load_and_align_raise _ (csv_native csv_dir NASDAQ)).
  - intros x h. apply csv_parse_load.
  - done.
  - unfold csv_native, nasdaq_csv_native, HistoricCSVDataHandler.read_csv.
    rewrite decide_True by done. rewrite Hfile. simpl.
    unfold getitem. simpl. by rewrite get_loc_None.
Qed.

(** The Yahoo file of the earlier example, read under the NASDAQ layout. *)
Lemma missing_closing_price_fails_construction_witness :
  fst (HistoricCSVDataHandler.__init__ [] dir_yahoo ([] ++ "Y" :: []) NASDAQ) =
  Raise KeyError.
Proof.
  apply (missing_closing_price_fails_construction [] dir_yahoo [] "Y" []
           {| columns := ["Open"; "High"; "Low"; "Close"; "Adj Close"; "Volume"];
              rows := [(1, [Some 10%Q; Some 12%Q; Some 9%Q; Some 11%Q; Some 11%Q; Some 500%Q]);
                       (2, [Some 0%Q; Some 0%Q; Some 0%Q; Some 0%Q; Some 0%Q; Some 0%Q])] |}).
  - intros x Hx. by apply elem_of_nil in Hx.
  - by vm_compute.
  - simpl. intros Hin. apply list_elem_of_In in Hin. simpl in Hin.
    repeat destruct Hin as [Hin|Hin]; try discriminate. done.
Defined.

(** X7. When every symbol of the list loads a chronological frame,
    construction of the file handler returns exactly when no symbol is listed
    twice; with a symbol listed twice it raises [AttributeError]. *)
Theorem file_handler_needs_distinct_symbols queue csv_dir symbols source :
  (forall x, x ∈ symbols ->
     exists df, csv_native csv_dir source x = Ok df /\ chronological df) ->
  fst (HistoricCSVDataHandler.__init__ queue csv_dir symbols source) =
  if decide (NoDup symbols) then Ok tt else Raise AttributeError.
Proof.
  intros Hall.
  unfold HistoricCSVDataHandler.__init__, HistoricCSVDataHandler._open_convert_csv_files.
  apply (load_and_align_result _ (csv_native csv_dir source)); [|done].
  intros x h. apply csv_parse_load.
Qed.

(** A is listed twice. *)
Lemma file_handler_needs_distinct_symbols_witness :
  fst (HistoricCSVDataHandler.__init__ [] dir_AB ["A"; "B"; "A"] NASDAQ) =
  if decide (NoDup ["A"; "B"; "A"]) then Ok tt else Raise AttributeError.
Proof.
  apply file_handler_needs_distinct_symbols.
  intros x Hx. apply list_elem_of_In in Hx. simpl in Hx.
  destruct Hx as [<-|[<-|[<-|[]]]]; eexists;
    (split; [vm_compute; reflexivity | unfold chronological; simpl; repeat constructor]).
Defined.

(** A provider that knows the one dataset NDX: three days, the second with
    value 0. *)
Definition quandl_example (code start_date end_date : string) : result DataFrame :=
  if decide (code = "NASDAQOMX/NDX")
  then Ok {| columns := ["Index Value"; "High"; "Low"; "Total Market Value";
                         "Dividend Market Value"];
             rows := [(1, [Some 100%Q; Some 101%Q; Some 99%Q; Some 5000%Q; Some 10%Q]);
                      (2, [Some 0%Q; Some 0%Q; Some 0%Q; Some 0%Q; Some 0%Q]);
                      (3, [Some 102%Q; Some 104%Q; Some 100%Q; Some 5100%Q; Some 10%Q])] |}
  else Raise NotFoundError.

Lemma _get_nasdaq_data_parse_load quandl_get start_date end_date s h :
  match quandl_native quandl_get start_date end_date s with
  | Ok df =>
      QuandlDataHandler._get_nasdaq_data quandl_get start_date end_date s h =
      (Ok tt, set_symbol_data <[s := Frame df]> h)
  | Raise e =>
      exists h',
        QuandlDataHandler._get_nasdaq_data quandl_get start_date end_date s h =
        (Raise e, h')
  end.
Proof. apply _get_nasdaq_data_load. Qed.

(** X8. The same for the Quandl handler: when the provider's answer for
    every symbol passes [_get_nasdaq_data] and is chronological, construction
    returns exactly when no symbol is listed twice, and raises
    [AttributeError] otherwise. *)
Theorem quandl_handler_needs_distinct_symbols quandl_get today queue symbols api_key
    start_date end_date :
  (forall x, x ∈ symbols ->
     exists df, quandl_native quandl_get start_date (default today end_date) x = Ok df /\
                chronological df) ->
  fst (QuandlDataHandler.__init__ quandl_get today queue symbols api_key
         start_date end_date) =
  if decide (NoDup symbols) then Ok tt else Raise AttributeError.
Proof.
  intros Hall.
  unfold QuandlDataHandler.__init__, QuandlDataHandler._load_convert_quandl_data.
  destruct end_date as [d|]; simpl in *.
  - apply (load_and_align_result _ (quandl_native quandl_get start_date d)); [|done].
    intros s h. apply _get_nasdaq_data_parse_load.
  - apply (load_and_align_result _ (quandl_native quandl_get start_date today)); [|done].
    intros s h. apply _get_nasdaq_data_parse_load.
Qed.

(** NDX alone, with the default end date. *)
Lemma quandl_handler_needs_distinct_symbols_witness :
  fst (QuandlDataHandler.__init__ quandl_example "2026-01-01" [] ["NDX"] "key"
         "2000-01-01" None) =
  if decide (NoDup ["NDX"]) then Ok tt else Raise AttributeError.
Proof.
  apply quandl_handler_needs_distinct_symbols.
  intros x Hx. apply list_elem_of_In in Hx. simpl in Hx.
  destruct Hx as [<-|[]]. eexists.
  split; [vm_compute; reflexivity | unfold chronological; simpl; repeat constructor].
Defined.

(** X9. The first symbol for which the provider's answer does not pass
    [_get_nasdaq_data] stops construction of the Quandl handler with that
    symbol's error. *)
Theorem quandl_handler_raises_first_error quandl_get today queue before s after
    api_key start_date end_date e :
  (forall x, x ∈ before ->
     exists df, quandl_native quandl_get start_date (default today end_date) x = Ok df) ->
  quandl_native quandl_get start_date (default today end_date) s = Raise e ->
  fst (QuandlDataHandler.__init__ quandl_get today queue (before ++ s :: after) api_key
         start_date end_date) = Raise e.
Proof.
  intros Hbefore Hs.
  unfold QuandlDataHandler.__init__, QuandlDataHandler._load_convert_quandl_data.
  destruct end_date as [d|]; simpl in *.
  - apply (load_and_align_raise _ (quandl_native quandl_get start_date d)); try done.
    intros x h. apply _get_nasdaq_data_parse_load.
  - apply (load_and_align_raise _ (quandl_native quandl_get start_date today)); try done.
    intros x h. apply _get_nasdaq_data_parse_load.
Qed.

(** The provider does not know XYZ. *)
Lemma quandl_handler_raises_first_error_witness :
  fst (QuandlDataHandler.__init__ quandl_example "2026-01-01" [] (["NDX"] ++ "XYZ" :: [])
         "key" "2000-01-01" (Some "2020-01-01")) = Raise NotFoundError.
Proof.
  apply quandl_handler_raises_first_error.
  - intros x Hx. apply list_elem_of_In in Hx. simpl in Hx.
    destruct Hx as [<-|[]]. eexists. vm_compute. reflexivity.
  - by vm_compute.
Defined.




(** * Further properties of the tables *)

(** X10. After construction every symbol's table is on the index of the
    native frame of the first symbol of the list, whatever the other symbols'
    own timestamps are. *)
Theorem tables_are_on_the_first_symbols_index load h first rest native s aligned :
  built load h ->
  symbol_list h = first :: rest ->
  load first = Ok native ->
  s ∈ symbol_list h ->
  symbol_dataframe h !! s = Some aligned ->
  index aligned = index native.
Proof.
  intros Hbuilt Hlist Hfirst Hs Haligned.
  destruct (aligned_tables_share_calendar _ _ Hbuilt s Hs)
    as (ci & native' & aligned' & Hci & _ & _ & Haligned' & Hindex).
  rewrite Hlist in Hci. simpl in Hci. rewrite Hfirst in Hci.
  injection Hci as <-. congruence.
Qed.

(** With B first, A's table is on B's three days. *)
Lemma tables_are_on_the_first_symbols_index_witness :
  index {| columns := ["Close"];
           rows := [(1, [Some 10%Q]); (2, [Some 11%Q]); (3, [Some 12%Q])] |} =
  index {| columns := ["Close"];
           rows := [(1, [Some 20%Q]); (2, [Some 21%Q]); (3, [Some 22%Q])] |}.
Proof.
  apply (tables_are_on_the_first_symbols_index (csv_native dir_AB NASDAQ)
           (handler_AB ["B"; "A"]) "B" ["A"] _ "A").
  - apply (built_csv [] dir_AB ["B"; "A"] NASDAQ). by vm_compute.
  - by vm_compute.
  - by vm_compute.
  - vm_compute. apply list_elem_of_In. simpl. auto.
  - by vm_compute.
Defined.

(** X11. The table of the first symbol of the list is its native frame, row
    for row, when that frame is chronological: alignment adds nothing to it
    and takes nothing from it. *)
Theorem first_symbol_table_is_its_native_frame load h first rest native :
  built load h ->
  symbol_list h = first :: rest ->
  load first = Ok native ->
  chronological native ->
  symbol_dataframe h !! first = Some native.
Proof.
  intros Hbuilt Hlist Hfirst Hchrono.
  destruct (aligned_tables_share_calendar _ _ Hbuilt first)
    as (ci & native' & aligned & Hci & Hload & Hpad & Haligned & _).
  { rewrite Hlist. by left. }
  rewrite Hlist in Hci. simpl in Hci. rewrite Hfirst in Hci.
  injection Hci as <-.
  assert (native' = native) as -> by congruence.
  rewrite (reindex_pad_chronological _ _ Hchrono), take_located_own_index in Hpad
    by done.
  congruence.
Qed.

(** A in the worked universe [A; B]. *)
Lemma first_symbol_table_is_its_native_frame_witness :
  symbol_dataframe (handler_AB ["A"; "B"]) !! "A" =
  Some {| columns := ["Close"];
          rows := [(1, [Some 10%Q]); (2, [Some 11%Q]); (3, [Some 12%Q]);
                   (4, [Some 13%Q]); (5, [Some 14%Q])] |}.
Proof.
  apply (first_symbol_table_is_its_native_frame (csv_native dir_AB NASDAQ)
           (handler_AB ["A"; "B"]) "A" ["B"]).
  - apply handler_AB_built.
  - by vm_compute.
  - by vm_compute.
  - unfold chronological. simpl. repeat constructor.
Defined.

(** A file listed newest first. *)
Definition newest_first (file : DataFrame) : Prop :=
  StronglySorted (fun a b => b < a) (index file).

Lemma sorted_rev (l : list Z) :
  StronglySorted (fun a b => b < a) l -> StronglySorted Z.lt (rev l).
Proof.
  induction l as [|a l IH]; intros Hsorted; simpl; [constructor|].
  apply StronglySorted_cons in Hsorted as [Hlt Hsorted].
  apply StronglySorted_app. split_and!.
  - intros x y Hx Hy. apply list_elem_of_In in Hy. simpl in Hy.
    destruct Hy as [<-|[]]. rewrite Forall_forall in Hlt. apply Hlt.
    apply list_elem_of_In. apply in_rev. by apply list_elem_of_In.
  - by apply IH.
  - repeat constructor.
Qed.

Lemma sorted_filter_rows (P : Row -> Prop) `{forall r, Decision (P r)} (rs : list Row) :
  StronglySorted Z.lt (map fst rs) ->
  StronglySorted Z.lt (map fst (filter P rs)).
Proof.
  induction rs as [|r rs IH]; intros Hsorted; simpl; [constructor|].
  simpl in Hsorted. apply StronglySorted_cons in Hsorted as [Hlt Hsorted].
  rewrite filter_cons. destruct (decide (P r)); [|by apply IH].
  simpl. apply StronglySorted_cons. split; [|by apply IH].
  rewrite Forall_forall in *. intros x Hx. apply Hlt.
  apply list_elem_of_fmap in Hx as (r' & -> & Hr').
  apply list_elem_of_filter in Hr' as [_ Hr'].
  apply list_elem_of_fmap. by exists r'.
Qed.

(** X12. [parse_nasdaq_csv] on a file listed newest first stores a frame
    with the single column [Close] whose index is strictly increasing: the
    reversal puts the rows in the order that forward-filling needs. *)
Theorem parse_nasdaq_csv_stores_chronological_frame csv_dir symbol file h h' :
  csv_dir !! (symbol +:+ ".csv") = Some file ->
  newest_first file ->
  HistoricCSVDataHandler.parse_nasdaq_csv csv_dir symbol h = (Ok tt, h') ->
  exists df,
    symbol_data h' !! symbol = Some (Frame df) /\
    columns df = ["Close"] /\ chronological df.
Proof.
  intros Hfile Hnewest Hparse.
  pose proof (parse_nasdaq_csv_load csv_dir symbol h) as Hload.
  destruct (nasdaq_csv_native csv_dir symbol) as [df|e] eqn:Hnative;
    [|destruct Hload as [? Hload]; congruence].
  rewrite Hload in Hparse. injection Hparse as <-.
  exists df. simpl. rewrite lookup_insert_eq. split; [done|].
  unfold nasdaq_csv_native, HistoricCSVDataHandler.read_csv in Hnative.
  rewrite Hfile in Hnative. cbn [rbind] in Hnative.
  unfold getitem in Hnative.
  destruct (get_loc "Closing price" (columns (iloc_reversed file))) as [i|];
    [|done].
  cbn [rbind] in Hnative. unfold where_close_positive in Hnative. simpl in Hnative.
  injection Hnative as <-. split; [done|].
  unfold chronological, index. simpl.
  apply sorted_filter_rows.
  rewrite !map_map. simpl. rewrite map_rev. by apply sorted_rev.
Qed.

(** A's file in the worked directory lists day 5 first. *)
Lemma parse_nasdaq_csv_stores_chronological_frame_witness :
  exists df,
    symbol_data (snd (HistoricCSVDataHandler.parse_nasdaq_csv dir_AB "A" (fresh [] ["A"])))
      !! "A" = Some (Frame df) /\
    columns df = ["Close"] /\ chronological df.
Proof.
  apply (parse_nasdaq_csv_stores_chronological_frame dir_AB "A"
           (nasdaq_file [(1, 10%Q); (2, 11%Q); (3, 12%Q); (4, 13%Q); (5, 14%Q)])
           (fresh [] ["A"])).
  - by vm_compute.
  - unfold newest_first. simpl. repeat constructor.
  - by vm_compute.
Defined.

(** * Further properties of the report and of reading *)

(** The report as a function of the universe and of the tables alone. *)
Definition report_step (tables : gmap string DataFrame)
    (dataframe : option float64.DataFrame) (symbol : string)
    : result (option float64.DataFrame) :=
  try! df := match tables !! symbol with
             | Some d => Ok d
             | None => Raise KeyError
             end in
  try! close := getitem df "Close" in
  try! dataframe :=
    match dataframe with
    | None =>
        float64.set_columns [symbol] (float64.to_frame "Close" (float64.of_prices close))
    | Some d => float64.setitem d symbol (float64.of_prices close)
    end in
  try! col := float64.getitem dataframe symbol in
  try! dataframe := float64.setitem dataframe symbol (float64.pct_change col) in
  try! col := float64.getitem dataframe symbol in
  try! dataframe :=
    float64.setitem dataframe symbol (float64.cumprod (float64.one_plus col)) in
  Ok (Some dataframe).

Fixpoint report_of (tables : gmap string DataFrame) (symbols : list string)
    (dataframe : option float64.DataFrame) : result (option float64.DataFrame) :=
  match symbols with
  | [] => Ok dataframe
  | symbol :: symbols' =>
      try! dataframe := report_step tables dataframe symbol in
      report_of tables symbols' dataframe
  end.

Lemma baseline_symbol_report_step dataframe symbol h :
  baseline_symbol dataframe symbol h =
  (report_step (symbol_dataframe h) dataframe symbol, h).
Proof.
  unfold baseline_symbol, report_step. munfold.
  destruct (symbol_dataframe h !! symbol) as [df|]; cbn [rbind]; [|done].
  destruct (getitem df "Close") as [close|]; cbn [rbind]; [|done].
  cbv zeta.
  destruct dataframe as [d|];
    [destruct (float64.setitem d symbol (float64.of_prices close)) as [d1|]
    |destruct (float64.set_columns [symbol]
                 (float64.to_frame "Close" (float64.of_prices close))) as [d1|]];
    cbn [rbind]; try done;
    (destruct (float64.getitem d1 symbol) as [col|]; cbn [rbind]; [|done];
     destruct (float64.setitem d1 symbol (float64.pct_change col)) as [d2|];
       cbn [rbind]; [|done];
     destruct (float64.getitem d2 symbol) as [col2|]; cbn [rbind]; [|done];
     by destruct (float64.setitem d2 symbol (float64.cumprod (float64.one_plus col2)))).
Qed.

Lemma create_baseline_dataframe_report h :
  create_baseline_dataframe h =
  (report_of (symbol_dataframe h) (symbol_list h) None, h).
Proof.
  unfold create_baseline_dataframe. unfold bind at 1. unfold gets.
  generalize (@None float64.DataFrame) as acc. generalize (symbol_list h) as l.
  induction l as [|symbol l IH]; intros acc; simpl; [done|].
  unfold bind at 1. rewrite baseline_symbol_report_step.
  destruct (report_step (symbol_dataframe h) acc symbol); cbn [rbind]; [apply IH | done].
Qed.

(** X13. The report does not depend on where the replay stands: after any
    calls on any handler, [create_baseline_dataframe] gives what it gave
    before them, and it leaves the handler as it finds it. *)
Theorem report_is_independent_of_replay h cs :
  create_baseline_dataframe (run cs h) =
  (fst (create_baseline_dataframe h), run cs h).
Proof.
  rewrite !create_baseline_dataframe_report. simpl.
  by destruct (run_static cs h) as [-> ->].
Qed.

(** X14. With an empty symbol list construction returns whatever the
    directory holds, the flag never goes down however many advances are
    made, each of them posts its event, and the report is [None]. *)
Theorem empty_universe_never_halts queue csv_dir source n :
  let h := snd (HistoricCSVDataHandler.__init__ queue csv_dir [] source) in
  fst (HistoricCSVDataHandler.__init__ queue csv_dir [] source) = Ok tt /\
  continue_backtest (ticks n h) = true /\
  events (ticks n h) = queue ++ replicate n MarketEvent /\
  fst (create_baseline_dataframe (ticks n h)) = Ok None.
Proof.
  simpl. split; [done|].
  change (snd (HistoricCSVDataHandler.__init__ queue csv_dir [] source))
    with (fresh queue []).
  assert (forall h, symbol_list h = [] ->
            symbol_list (ticks n h) = [] /\
            continue_backtest (ticks n h) = continue_backtest h /\
            events (ticks n h) = events h ++ replicate n MarketEvent) as Hticks.
  { induction n as [|n IH]; intros h Hnil; simpl.
    - by rewrite app_nil_r.
    - rewrite update_latest_data_eq, Hnil. simpl.
      destruct (IH (set_events (fun queue0 => queue0 ++ [MarketEvent]) h) Hnil)
        as (-> & -> & ->).
      simpl. by rewrite <- app_assoc. }
  destruct (Hticks (fresh queue []) eq_refl) as (Hnil & Hflag & Hevents).
  split_and!; [done | done |].
  rewrite create_baseline_dataframe_report, Hnil. done.
Qed.

(** X15. A handler built from files in the NASDAQ layout never holds a
    price at or below zero: not in a table, and not in a bar of a buffer
    after any calls (a price is positive or NaN). *)
Theorem nasdaq_layout_prices_are_positive queue csv_dir symbols h0 cs s :
  HistoricCSVDataHandler.__init__ queue csv_dir symbols NASDAQ = (Ok tt, h0) ->
  s ∈ symbols ->
  Forall (fun r : Row => positive_or_NaN (iat 0 (snd r))) (table_of s (run cs h0)) /\
  Forall (fun bar : Bar => positive_or_NaN (snd bar)) (buffer_of s (run cs h0)).
Proof.
  intros Hinit Hs.
  pose proof (built_csv _ _ _ _ _ Hinit) as Hbuilt.
  destruct (built_loaded _ _ Hbuilt) as [queue' Hloaded].
  destruct (filtering_loader_prices _ h0 cs Hbuilt (nasdaq_filtering csv_dir))
    as [Htables [_ Hbuffers]].
  split.
  - apply Forall_forall. intros r Hr. apply (Htables s r); [|done].
    unfold HistoricCSVDataHandler.__init__,
      HistoricCSVDataHandler._open_convert_csv_files in Hinit.
    eapply load_and_align_loaded in Hinit as Hl.
    + by rewrite (loaded_symbol_list _ _ _ _ Hl).
    + intros x h. apply csv_parse_load.
  - unfold buffer_of.
    destruct (latest_symbol_data (run cs h0) !! s) as [buffer|] eqn:Hbuffer; simpl.
    + by apply (Hbuffers s).
    + constructor.
Qed.

(** A file whose second day has closing price 0 and whose third has -3. *)
Definition dir_noisy : gmap string DataFrame :=
  {["N.csv" := nasdaq_file [(1, 10%Q); (2, 0%Q); (3, (-3)%Q); (4, 12%Q)] ]}.

Lemma nasdaq_layout_prices_are_positive_witness :
  let h0 := snd (HistoricCSVDataHandler.__init__ [] dir_noisy ["N"] NASDAQ) in
  Forall (fun r : Row => positive_or_NaN (iat 0 (snd r)))
         (table_of "N" (run [Update; Update; Update] h0)) /\
  Forall (fun bar : Bar => positive_or_NaN (snd bar))
         (buffer_of "N" (run [Update; Update; Update] h0)).
Proof.
  apply (nasdaq_layout_prices_are_positive [] dir_noisy ["N"]).
  - by vm_compute.
  - apply list_elem_of_In. simpl. auto.
Defined.

(** X16. The same for a handler built by the Quandl class. *)
Theorem quandl_prices_are_positive quandl_get today queue symbols api_key
    start_date end_date h0 cs s :
  QuandlDataHandler.__init__ quandl_get today queue symbols api_key
    start_date end_date = (Ok tt, h0) ->
  s ∈ symbols ->
  Forall (fun r : Row => positive_or_NaN (iat 0 (snd r))) (table_of s (run cs h0)) /\
  Forall (fun bar : Bar => positive_or_NaN (snd bar)) (buffer_of s (run cs h0)).
Proof.
  intros Hinit Hs.
  pose proof (built_quandl _ _ _ _ _ _ _ _ Hinit) as Hbuilt.
  destruct (built_loaded _ _ Hbuilt) as [queue' Hloaded].
  destruct (filtering_loader_prices _ h0 cs Hbuilt
              (quandl_filtering quandl_get start_date (default today end_date)))
    as [Htables [_ Hbuffers]].
  split.
  - apply Forall_forall. intros r Hr. apply (Htables s r); [|done].
    unfold QuandlDataHandler.__init__,
      QuandlDataHandler._load_convert_quandl_data in Hinit.
    eapply load_and_align_loaded in Hinit as Hl.
    + by rewrite (loaded_symbol_list _ _ _ _ Hl).
    + intros x h. apply _get_nasdaq_data_parse_load.
  - unfold buffer_of.
    destruct (latest_symbol_data (run cs h0) !! s) as [buffer|] eqn:Hbuffer; simpl.
    + by apply (Hbuffers s).
    + constructor.
Qed.

Lemma quandl_prices_are_positive_witness :
  let h0 := snd (QuandlDataHandler.__init__ quandl_example "2026-01-01" [] ["NDX"]
                   "key" "2000-01-01" None) in
  Forall (fun r : Row => positive_or_NaN (iat 0 (snd r)))
         (table_of "NDX" (run [Update; Update] h0)) /\
  Forall (fun bar : Bar => positive_or_NaN (snd bar))
         (buffer_of "NDX" (run [Update; Update] h0)).
Proof.
  apply (quandl_prices_are_positive quandl_example "2026-01-01" [] ["NDX"] "key"
           "2000-01-01" None).
  - by vm_compute.
  - apply list_elem_of_In. simpl. auto.
Defined.

(** X17. For a count [N] of at least one, [get_latest_data] returns the
    bars of the last [N] table rows that the advances have passed, oldest
    first, or of all the rows passed when they are fewer than [N], and leaves
    the handler as it is. *)
Theorem get_latest_data_is_the_last_rows_passed load h0 cs s N :
  built load h0 ->
  priced h0 = true ->
  s ∈ symbol_list h0 ->
  1 <= N ->
  let passed := take (updates cs) (table_of s h0) in
  get_latest_data s N (run cs h0) =
  (Ok (map (bar_of s) (drop (length passed - Z.to_nat N) passed)), run cs h0).
Proof.
  intros Hbuilt Hpriced Hs HN passed.
  pose proof (replayed_buffer _ _ _ (built_replayed _ _ cs Hbuilt Hpriced) s Hs)
    as Hbuffer.
  rewrite get_latest_data_eq, Hbuffer, slice_from_last by done.
  fold passed. rewrite length_map. do 2 f_equal.
  generalize (length passed - Z.to_nat N)%nat as n. generalize passed as l.
  induction l as [|r l IH]; intros [|n]; simpl; try done.
Qed.

(** The last two of the three bars of B that three advances revealed. *)
Lemma get_latest_data_is_the_last_rows_passed_witness :
  let passed := take (updates [Update; Update; Update])
                     (table_of "B" (handler_AB ["A"; "B"])) in
  get_latest_data "B" 2 (run [Update; Update; Update] (handler_AB ["A"; "B"])) =
  (Ok (map (bar_of "B") (drop (length passed - Z.to_nat 2) passed)),
   run [Update; Update; Update] (handler_AB ["A"; "B"])).
Proof.
  apply (get_latest_data_is_the_last_rows_passed (csv_native dir_AB NASDAQ)).
  - apply handler_AB_built.
  - by vm_compute.
  - vm_compute. apply list_elem_of_In. simpl. auto.
  - lia.
Defined.

(** X18. For a count of zero or less, [get_latest_data] returns the buffer
    without its first [-N] bars: all of it for 0, and for a negative count
    the bars after the oldest [|N|], which are none once [|N|] reaches the
    length of the buffer.  The handler is left as it is. *)
Theorem get_latest_data_non_positive_count h symbol buffer N :
  latest_symbol_data h !! symbol = Some buffer ->
  N <= 0 ->
  get_latest_data symbol N h = (Ok (drop (Z.to_nat (- N)) buffer), h).
Proof.
  intros Hbuffer HN. rewrite get_latest_data_eq, Hbuffer. do 2 f_equal.
  unfold slice_from.
  destruct (- N <? 0) eqn:Hneg; [apply Z.ltb_lt in Hneg; lia|].
  destruct (decide (- N <= Z.of_nat (length buffer))) as [Hle|Hgt].
  - by rewrite Z.min_l.
  - rewrite Z.min_r by lia. rewrite Nat2Z.id.
    rewrite !drop_ge; [done | lia | lia].
Qed.

(** A's four bars after four advances, asked with the count -3. *)
Lemma get_latest_data_non_positive_count_witness :
  get_latest_data "A" (-3) (ticks 4 (handler_AB ["A"; "B"])) =
  (Ok (drop (Z.to_nat (- -3))
         [("A", 1, Some 10%Q); ("A", 2, Some 11%Q);
          ("A", 3, Some 12%Q); ("A", 4, Some 13%Q)]),
   ticks 4 (handler_AB ["A"; "B"])).
Proof.
  apply get_latest_data_non_positive_count; [by vm_compute | lia].
Defined.

(** * Further properties of the loaders *)

(** The labels that stay when the columns called [name] are dropped. *)
Lemma select_other_labels name (cols : list string) :
  select (map (fun c => negb (bool_decide (c = name))) cols) cols =
  filter (fun c => c <> name) cols.
Proof.
  induction cols as [|c cols IH]; [done|].
  cbn [map select]. rewrite filter_cons, IH.
  destruct (decide (c = name)) as [->|Hne].
  - rewrite bool_decide_eq_true_2 by done. simpl. by rewrite decide_False by auto.
  - rewrite bool_decide_eq_false_2 by done. simpl. by rewrite decide_True.
Qed.

Lemma filter_other_labels_length name (cols : list string) :
  NoDup cols -> name ∈ cols ->
  S (length (filter (fun c => c <> name) cols)) = length cols.
Proof.
  induction cols as [|c cols IH]; intros Hnodup Hin; [by apply elem_of_nil in Hin|].
  apply NoDup_cons in Hnodup as [Hc Hnodup]. rewrite filter_cons.
  destruct (decide (c = name)) as [->|Hne].
  - rewrite decide_False by auto. simpl. f_equal.
    f_equal. clear IH Hin Hnodup. induction cols as [|c cols IH]; [done|].
    apply not_elem_of_cons in Hc as [Hne Hc]. rewrite filter_cons.
    rewrite decide_True by auto. by rewrite IH.
  - rewrite decide_True by done. simpl. f_equal. apply IH; [done|].
    apply elem_of_cons in Hin as [->|Hin]; done.
Qed.

Lemma drop_column_Ok name df df' :
  drop_column name df = Ok df' ->
  NoDup (columns df) ->
  name ∈ columns df /\
  S (length (columns df')) = length (columns df) /\
  (forall n, n ∈ columns df' -> n ∈ columns df) /\
  NoDup (columns df').
Proof.
  unfold drop_column.
  destruct (decide (name ∈ columns df)) as [Hin|]; [|done].
  intros [= <-] Hnodup. simpl. rewrite select_other_labels. split_and!.
  - done.
  - by apply filter_other_labels_length.
  - intros n Hn. by apply list_elem_of_filter in Hn as [_ Hn].
  - by apply NoDup_filter.
Qed.

(** X19. The Quandl handler is built only from answers of the provider that
    have, their column labels being distinct, the four columns
    [_get_nasdaq_data] drops and exactly one more, the one it calls [Close]. *)
Theorem quandl_answer_has_five_columns quandl_get today queue symbols api_key
    start_date end_date h s answer :
  QuandlDataHandler.__init__ quandl_get today queue symbols api_key
    start_date end_date = (Ok tt, h) ->
  s ∈ symbols ->
  quandl_get ("NASDAQOMX/" +:+ s) start_date (default today end_date) = Ok answer ->
  NoDup (columns answer) ->
  length (columns answer) = 5%nat /\
  "High" ∈ columns answer /\ "Low" ∈ columns answer /\
  "Total Market Value" ∈ columns answer /\
  "Dividend Market Value" ∈ columns answer.
Proof.
  intros Hinit Hs Hanswer Hnodup.
  unfold QuandlDataHandler.__init__,
    QuandlDataHandler._load_convert_quandl_data in Hinit.
  eapply load_and_align_loaded in Hinit as Hloaded;
    [|intros x h0; apply _get_nasdaq_data_parse_load].
  destruct (loaded_in _ _ _ _ Hloaded s Hs) as (df & aligned & Hnative & _).
  unfold quandl_native in Hnative.
  assert (match end_date with Some d => d | None => today end =
          default today end_date) as Hdate by (by destruct end_date).
  rewrite Hdate, Hanswer in Hnative.
  cbn [rbind drop_columns] in Hnative.
  destruct (drop_column "High" answer) as [d1|] eqn:H1; [|done].
  cbn [rbind] in Hnative.
  destruct (drop_column "Low" d1) as [d2|] eqn:H2; [|done].
  cbn [rbind] in Hnative.
  destruct (drop_column "Total Market Value" d2) as [d3|] eqn:H3; [|done].
  cbn [rbind] in Hnative.
  destruct (drop_column "Dividend Market Value" d3) as [d4|] eqn:H4; [|done].
  cbn [rbind] in Hnative.
  destruct (set_columns ["Close"] d4) as [d5|] eqn:H5; [|done].
  unfold set_columns in H5.
  destruct (decide (length ["Close"] = length (columns d4))) as [Hone|]; [|done].
  simpl in Hone.
  apply drop_column_Ok in H1 as (Hhigh & Hlen1 & Hsub1 & Hnodup1); [|done].
  apply drop_column_Ok in H2 as (Hlow & Hlen2 & Hsub2 & Hnodup2); [|done].
  apply drop_column_Ok in H3 as (Htmv & Hlen3 & Hsub3 & Hnodup3); [|done].
  apply drop_column_Ok in H4 as (Hdmv & Hlen4 & Hsub4 & Hnodup4); [|done].
  split_and!; [lia | done | auto | auto | auto].
Qed.

Lemma quandl_answer_has_five_columns_witness :
  let answer :=
    {| columns := ["Index Value"; "High"; "Low"; "Total Market Value";
                   "Dividend Market Value"];
       rows := [(1, [Some 100%Q; Some 101%Q; Some 99%Q; Some 5000%Q; Some 10%Q]);
                (2, [Some 0%Q; Some 0%Q; Some 0%Q; Some 0%Q; Some 0%Q]);
                (3, [Some 102%Q; Some 104%Q; Some 100%Q; Some 5100%Q; Some 10%Q])] |} in
  length (columns answer) = 5%nat /\
  "High" ∈ columns answer /\ "Low" ∈ columns answer /\
  "Total Market Value" ∈ columns answer /\
  "Dividend Market Value" ∈ columns answer.
Proof.
  apply (quandl_answer_has_five_columns quandl_example "2026-01-01" [] ["NDX"] "key"
           "2000-01-01" None
           (snd (QuandlDataHandler.__init__ quandl_example "2026-01-01" [] ["NDX"]
                   "key" "2000-01-01" None)) "NDX").
  - by vm_compute.
  - apply list_elem_of_In. simpl. auto.
  - by vm_compute.
  - simpl. apply NoDup_ListNoDup. repeat constructor; simpl; intuition discriminate.
Defined.

Lemma second_pass_all_data ci l : forall h h',
  for_each l (align_symbol ci) h = (Ok tt, h') ->
  (forall s, s ∈ l -> all_data h' !! s = symbol_dataframe h' !! s) /\
  (forall s, s ∉ l -> all_data h' !! s = all_data h !! s).
Proof.
  induction l as [|x l IH]; intros h h' Hrun.
  - simpl in Hrun. unfold ret in Hrun. injection Hrun as <-.
    split; [|done]. intros s Hs. by apply elem_of_nil in Hs.
  - pose proof (second_pass ci (x :: l) h h' Hrun) as (Hnodup & _).
    apply NoDup_cons in Hnodup as [Hxl _].
    simpl in Hrun. apply bind_inv_Ok in Hrun as ([] & h1 & Hbody & Hrest).
    rewrite align_symbol_eq in Hbody.
    destruct (symbol_data h !! x) as [[df|it]|] eqn:Hx; try discriminate.
    destruct (reindex_pad df ci) as [aligned|e]; try discriminate.
    injection Hbody as <-.
    pose proof (second_pass ci l _ h' Hrest) as (_ & _ & Hout & _).
    destruct (IH _ h' Hrest) as [Hin Hout'].
    split.
    + intros s Hs. apply elem_of_cons in Hs as [->|Hs]; [|by apply Hin].
      rewrite (Hout' x Hxl). destruct (Hout x Hxl) as [_ ->]. simpl.
      by rewrite !lookup_insert_eq.
    + intros s Hs. apply not_elem_of_cons in Hs as [Hne Hs].
      rewrite (Hout' s Hs). simpl. by rewrite lookup_insert_ne.
Qed.

Lemma load_and_align_all_data parse queue symbols h s :
  load_and_align parse (fresh queue symbols) = (Ok tt, h) ->
  s ∈ symbols ->
  all_data h !! s = symbol_dataframe h !! s.
Proof.
  unfold load_and_align. intros Hrun Hs.
  apply bind_inv_Ok in Hrun as (l & h0 & Hget & Hrun).
  unfold gets in Hget. injection Hget as <- <-. simpl in Hrun.
  apply bind_inv_Ok in Hrun as (ci & h1 & _ & Hsecond).
  by apply (second_pass_all_data ci symbols h1 h Hsecond).
Qed.

Lemma run_all_data cs : forall h, all_data (run cs h) = all_data h.
Proof.
  induction cs as [|c cs IH]; intros h; simpl; [done|].
  rewrite IH. destruct c as [|symbol N|]; simpl.
  - rewrite update_latest_data_eq.
    pose proof (for_each_update_frame (symbol_list h) h) as (_ & _ & _ & ? & _).
    by destruct (for_each (symbol_list h) update_symbol h) as [[[]|e] h1].
  - rewrite get_latest_data_eq. by destruct (latest_symbol_data h !! symbol).
  - by rewrite create_baseline_dataframe_state.
Qed.

(** X20. [all_data] holds for every symbol the same table as
    [symbol_dataframe], from construction on: no call changes either. *)
Theorem all_data_is_the_table load h0 cs s :
  built load h0 ->
  s ∈ symbol_list h0 ->
  all_data (run cs h0) !! s = symbol_dataframe (run cs h0) !! s /\
  symbol_dataframe (run cs h0) !! s = symbol_dataframe h0 !! s.
Proof.
  intros Hbuilt Hs.
  destruct (run_static cs h0) as [_ ->]. rewrite run_all_data. split; [|done].
  destruct (built_loaded _ _ Hbuilt) as [queue' Hloaded].
  destruct Hbuilt as [queue csv_dir symbols source h Hinit
                     |quandl_get today queue symbols api_key start_date end_date h Hinit].
  - unfold HistoricCSVDataHandler.__init__,
      HistoricCSVDataHandler._open_convert_csv_files in Hinit.
    apply (load_and_align_all_data _ _ _ _ s Hinit).
    eapply load_and_align_loaded in Hinit as Hl;
      [|intros x h1; apply csv_parse_load].
    by rewrite <- (loaded_symbol_list _ _ _ _ Hl).
  - unfold QuandlDataHandler.__init__,
      QuandlDataHandler._load_convert_quandl_data in Hinit.
    apply (load_and_align_all_data _ _ _ _ s Hinit).
    eapply load_and_align_loaded in Hinit as Hl;
      [|intros x h1; apply _get_nasdaq_data_parse_load].
    by rewrite <- (loaded_symbol_list _ _ _ _ Hl).
Qed.

Lemma all_data_is_the_table_witness :
  let h0 := handler_AB ["A"; "B"] in
  all_data (run [Update; Baseline; Update] h0) !! "B" =
    symbol_dataframe (run [Update; Baseline; Update] h0) !! "B" /\
  symbol_dataframe (run [Update; Baseline; Update] h0) !! "B" =
    symbol_dataframe h0 !! "B".
Proof.
  apply (all_data_is_the_table (csv_native dir_AB NASDAQ)).
  - apply handler_AB_built.
  - vm_compute. apply list_elem_of_In. simpl. auto.
Defined.

(** X21. Under the Yahoo layout the first symbol of the list, its file being
    chronological, is replayed from the file as it is, and each bar carries
    the file's first data column ([row[1][0]]), whichever column that is. *)
Theorem yahoo_bars_carry_the_first_column queue csv_dir first rest source file h0 cs :
  source <> NASDAQ ->
  HistoricCSVDataHandler.__init__ queue csv_dir (first :: rest) source = (Ok tt, h0) ->
  csv_dir !! (first +:+ ".csv") = Some file ->
  chronological file ->
  priced h0 = true ->
  latest_symbol_data (run cs h0) !! first =
  Some (map (bar_of first) (take (updates cs) (rows file))).
Proof.
  intros Hsource Hinit Hfile Hchrono Hpriced.
  pose proof (built_csv _ _ _ _ _ Hinit) as Hbuilt.
  assert (symbol_list h0 = first :: rest) as Hlist.
  { unfold HistoricCSVDataHandler.__init__,
      HistoricCSVDataHandler._open_convert_csv_files in Hinit.
    eapply load_and_align_loaded in Hinit as Hl;
      [|intros x h1; apply csv_parse_load].
    apply (loaded_symbol_list _ _ _ _ Hl). }
  assert (csv_native csv_dir source first = Ok file) as Hnative.
  { unfold csv_native, HistoricCSVDataHandler.read_csv.
    rewrite decide_False by done. by rewrite Hfile. }
  destruct (aligned_tables_share_calendar _ _ Hbuilt first)
    as (ci & native' & aligned & Hci & Hload & Hpad & Haligned & _).
  { rewrite Hlist. by left. }
  rewrite Hlist in Hci. simpl in Hci. rewrite Hnative in Hci. injection Hci as <-.
  assert (native' = file) as -> by congruence.
  rewrite (reindex_pad_chronological _ _ Hchrono), take_located_own_index in Hpad
    by done.
  injection Hpad as <-.
  pose proof (replayed_buffer _ _ _ (built_replayed _ _ cs Hbuilt Hpriced) first)
    as Hbuffer.
  unfold table_of in Hbuffer. rewrite Haligned in Hbuffer.
  apply Hbuffer. rewrite Hlist. by left.
Qed.

(** The Yahoo file of the earlier example: the bars carry [Open]. *)
Lemma yahoo_bars_carry_the_first_column_witness :
  latest_symbol_data (run [Update; Update] handler_yahoo) !! "Y" =
  Some (map (bar_of "Y")
          (take (updates [Update; Update])
             [(1, [Some 10%Q; Some 12%Q; Some 9%Q; Some 11%Q; Some 11%Q; Some 500%Q]);
              (2, [Some 0%Q; Some 0%Q; Some 0%Q; Some 0%Q; Some 0%Q; Some 0%Q])])).
Proof.
  apply (yahoo_bars_carry_the_first_column [] dir_yahoo "Y" [] YAHOO
           {| columns := ["Open"; "High"; "Low"; "Close"; "Adj Close"; "Volume"];
              rows := [(1, [Some 10%Q; Some 12%Q; Some 9%Q; Some 11%Q; Some 11%Q; Some 500%Q]);
                       (2, [Some 0%Q; Some 0%Q; Some 0%Q; Some 0%Q; Some 0%Q; Some 0%Q])] |}).
  - discriminate.
  - by vm_compute.
  - by vm_compute.
  - unfold chronological. simpl. repeat constructor.
  - by vm_compute.
Defined.

(** X22. A native row of a symbol whose timestamp is on the calendar is in
    the symbol's table as it was loaded: alignment fills the other days and
    alters no observation. *)
Theorem native_rows_on_the_calendar_are_kept load h s native aligned r :
  built load h ->
  s ∈ symbol_list h ->
  load s = Ok native ->
  chronological native ->
  symbol_dataframe h !! s = Some aligned ->
  r ∈ rows native ->
  fst r ∈ index aligned ->
  r ∈ rows aligned.
Proof.
  intros Hbuilt Hs Hload Hchrono Haligned Hr Hday.
  destruct (aligned_tables_share_calendar _ _ Hbuilt s Hs)
    as (ci & native' & aligned0 & _ & Hload' & Hpad & Haligned' & Hindex).
  assert (native' = native) as -> by congruence.
  assert (aligned0 = aligned) as -> by congruence.
  rewrite (reindex_pad_chronological _ _ Hchrono) in Hpad. injection Hpad as <-.
  rewrite Hindex in Hday. simpl.
  apply list_elem_of_fmap. exists (fst r). split; [|done].
  rewrite (pad_locate_exact (rows native) r Hchrono Hr). by destruct r.
Qed.

(** B's own day 3 in the worked universe [A; B]. *)
Lemma native_rows_on_the_calendar_are_kept_witness :
  (3, [Some 22%Q]) ∈
  rows {| columns := ["Close"];
          rows := [(1, [Some 20%Q]); (2, [Some 21%Q]); (3, [Some 22%Q]);
                   (4, [Some 22%Q]); (5, [Some 22%Q])] |}.
Proof.
  apply (native_rows_on_the_calendar_are_kept (csv_native dir_AB NASDAQ)
           (handler_AB ["A"; "B"]) "B"
           {| columns := ["Close"];
              rows := [(1, [Some 20%Q]); (2, [Some 21%Q]); (3, [Some 22%Q])] |}).
  - apply handler_AB_built.
  - vm_compute. apply list_elem_of_In. simpl. auto.
  - by vm_compute.
  - unfold chronological. simpl. repeat constructor.
  - by vm_compute.
  - simpl. apply list_elem_of_In. simpl. auto.
  - simpl. apply list_elem_of_In. simpl. auto.
Defined.

(** X23. The replay lasts as long as the native frame of the first symbol of
    the list: the flag is up exactly while the number of advances made does
    not exceed that frame's number of rows, however many rows the other
    symbols have. *)
Theorem replay_lasts_as_long_as_the_first_symbol load h0 first rest native cs :
  built load h0 ->
  priced h0 = true ->
  symbol_list h0 = first :: rest ->
  load first = Ok native ->
  continue_backtest (run cs h0) = bool_decide (updates cs <= length (rows native))%nat.
Proof.
  intros Hbuilt Hpriced Hlist Hfirst.
  assert (first ∈ symbol_list h0) as Hin by (rewrite Hlist; by left).
  rewrite (replayed_flag _ _ _ (built_replayed _ _ cs Hbuilt Hpriced) first Hin).
  destruct (aligned_tables_share_calendar _ _ Hbuilt first Hin)
    as (ci & native' & aligned & Hci & _ & _ & Haligned & Hindex).
  rewrite Hlist in Hci. simpl in Hci. rewrite Hfirst in Hci. injection Hci as <-.
  unfold table_of. rewrite Haligned.
  apply (f_equal length) in Hindex. unfold index in Hindex.
  rewrite !length_map in Hindex. by rewrite Hindex.
Qed.

(** With B first the replay of the worked files lasts three advances. *)
Lemma replay_lasts_as_long_as_the_first_symbol_witness :
  let native := {| columns := ["Close"];
                   rows := [(1, [Some 20%Q]); (2, [Some 21%Q]); (3, [Some 22%Q])] |} in
  continue_backtest (run (replicate 4 Update) (handler_AB ["B"; "A"])) =
  bool_decide (updates (replicate 4 Update) <= length (rows native))%nat.
Proof.
  apply (replay_lasts_as_long_as_the_first_symbol (csv_native dir_AB NASDAQ)
           (handler_AB ["B"; "A"]) "B" ["A"]).
  - apply (built_csv [] dir_AB ["B"; "A"] NASDAQ). by vm_compute.
  - by vm_compute.
  - by vm_compute.
  - by vm_compute.
Defined.
